(** * AQT common utilities: shape conformance, clip bounds, contraction axes

    A shallow embedding of [aqt/tensorflow/aqt_common.py] together with the
    parts of the quantizer that the specification describes.

    Conventions of the embedding:
    - a Python function that may raise returns a [result]; the exception
      classes are the constructors of [exn], their messages are not kept;
    - a Python [int] is a [Z], an [Optional[int]] an [option Z];
    - a Python [float] is a rational of [Q]; for the clip bounds the
      operations are the exact ones of [Q], and [binary64_exact] below shows
      that for bit widths 1..23 every intermediate value is a binary64
      number, so no rounding happens there; the float32 operations of the
      straight-through estimator round their result ([STE.round32]);
    - a [str] is a [string], [str.index] is [String.index] from position 0. *)

From Stdlib Require Import String Ascii.
From Stdlib Require Import ZArith QArith Qpower Qround Qabs List Bool Lia.
From Stdlib Require Import Permutation.
Import ListNotations.

Set Implicit Arguments.

(** ** Exceptions and the error monad *)

Inductive exn : Set :=
| ValueError
| AssertionError
| ConfigError.

Inductive result (A : Type) : Type :=
| OK (a : A)
| Raise (e : exn).

Arguments OK {A} a.
Arguments Raise {A} e.

Definition bind {A B : Type} (m : result A) (k : A -> result B) : result B :=
  match m with
  | OK a => k a
  | Raise e => Raise e
  end.

Declare Scope result_scope.
Delimit Scope result_scope with result.
Notation "x <- m ;; k" := (bind m (fun x => k))
  (at level 61, m at next level, right associativity) : result_scope.
Notation "m ;;; k" := (bind m (fun _ => k))
  (at level 61, right associativity) : result_scope.
Open Scope result_scope.

(** [assert cond, msg] *)
Definition assert (cond : bool) : result unit :=
  if cond then OK tt else Raise AssertionError.

Definition raises {A : Type} (m : result A) : Prop :=
  exists e, m = Raise e.

Definition returns {A : Type} (m : result A) : Prop :=
  exists a, m = OK a.

(** ** Shapes *)

Module Shape.

(** One entry of a shape: a size, or [None] for an unknown dimension. *)
Definition dim : Set := option Z.
Definition shape : Set := list dim.

(** Python's [==] on [Optional[int]]. *)
Definition dim_eqb (a b : dim) : bool :=
  match a, b with
  | Some x, Some y => Z.eqb x y
  | None, None => true
  | _, _ => false
  end.

(** Python's [==] on lists: same length and equal entries. *)
Fixpoint shape_eqb (l1 l2 : shape) : bool :=
  match l1, l2 with
  | [], [] => true
  | a :: l1', b :: l2' => dim_eqb a b && shape_eqb l1' l2'
  | _, _ => false
  end.

(** [[ax if ax is not None else given for ax, given in zip(actual, expected)]]
    ([combine] stops at the shorter list, as [zip] does). *)
Definition expected_shape (actual expected : shape) : shape :=
  map (fun '(ax, given) => match ax with Some _ => ax | None => given end)
      (combine actual expected).

Definition check_shapes_conformal (actual expected : shape) : result unit :=
  let expected_shape := expected_shape actual expected in
  let compatible_rank := Nat.eqb (length actual) (length expected) in
  let compatible_size := shape_eqb actual expected_shape in
  if negb compatible_rank || negb compatible_size
  then Raise ValueError
  else OK tt.

(** The relation of the docstring: [actual] conforms to [expected] if it is
    equal in rank and has identical sizes in all non-None dimensions of
    [expected]. *)
Definition conforms (actual expected : shape) : Prop :=
  length actual = length expected /\
  forall i n, nth_error expected i = Some (Some n) ->
              nth_error actual i = Some (Some n).

(** Two entries that the comparison of [actual] with the substituted list
    lets through: an unknown entry of [actual] needs an unknown entry of
    [expected]. *)
Definition accepts (ax given : dim) : Prop := ax = None -> given = None.

(** Every entry is a known integer. *)
Definition all_known (s : shape) : Prop :=
  Forall (fun d : dim => d <> None) s.

End Shape.

(** ** Clip bounds *)

Module ClipBound.

(** [aqt_config.IntQuantConfig]: the two fields that the clip bounds read. *)
Record IntQuantConfig : Set := {
  bits : Z;
  preserve_zero : bool
}.

(** [config.validate()] is a method of [aqt_config], which is not among the
    sources: it is an interface here, and the results below hold for every
    implementation of it. *)
Class Validate (C : Type) : Type := validate : C -> result unit.

(** Modelled from the spec: [IntQuantConfig.validate] of [aqt_config], which
    is missing from the sources. The data model says that [bits] is a
    positive integer; an invalid static configuration is a ConfigError. *)
Definition IntQuantConfig_validate : Validate IntQuantConfig :=
  fun config => if (1 <=? bits config)%Z then OK tt else Raise ConfigError.

(** Python's [<] on floats. *)
Definition Qlt_bool (x y : Q) : bool :=
  match x ?= y with
  | Lt => true
  | _ => false
  end.

Definition get_clip_bound {V : Validate IntQuantConfig}
    (config : IntQuantConfig) : result Q :=
  validate config ;;;
  assert (bits config <=? 23)%Z ;;;
  let bucket_count := 2 ^ bits config in
  let bucket_count :=
    if preserve_zero config then bucket_count - 1 else bucket_count in
  OK (bucket_count / 2).

Definition safe_clip_bound {V : Validate IntQuantConfig}
    (config : IntQuantConfig) : result Q :=
  cb_unsafe <- get_clip_bound config ;;
  let cb := cb_unsafe - 2 ^ (-20 + bits config) in
  assert (Qlt_bool cb cb_unsafe) ;;;
  OK cb.

(** The value that [get_clip_bound] computes once both checks have passed. *)
Definition display_bound (config : IntQuantConfig) : Q :=
  (if preserve_zero config then 2 ^ bits config - 1 else 2 ^ bits config) / 2.

(** The bucket count in the words of the specification, over the integers:
    [2^bits - (1 if preserve_zero else 0)]. *)
Definition bucket_count_spec (config : IntQuantConfig) : Z :=
  (2 ^ bits config - (if preserve_zero config then 1 else 0))%Z.

(** A binary64 number: a significand below [2^53] times a power of two in
    the exponent range of the format. *)
Definition binary64 (q : Q) : Prop :=
  exists m e : Z,
    (Z.abs m < 2 ^ 53)%Z /\ (-1074 <= e <= 971)%Z /\ q == inject_Z m * 2 ^ e.

End ClipBound.

(** ** Contraction axes of a convolution *)

Module ConvContraction.

(** [aqt_config.StatsConfig]: the field that the validation reads. *)
Record StatsConfig : Set := {
  share_stats_axes : list Z
}.

(** [s.index(sub)]: the first position of [sub] in [s], ValueError if there
    is none. *)
Definition str_index (s sub : string) : result nat :=
  match String.index 0 sub s with
  | Some i => OK i
  | None => Raise ValueError
  end.

(** [axis in stats_axes] *)
Definition axis_in (axis : nat) (stats_axes : list Z) : bool :=
  existsb (Z.eqb (Z.of_nat axis)) stats_axes.

(** A [for] loop whose body may raise: the first exception leaves the loop. *)
Fixpoint for_each {A : Type} (body : A -> result unit) (l : list A)
    : result unit :=
  match l with
  | [] => OK tt
  | a :: l' => body a ;;; for_each body l'
  end.

Definition validate_conv_contraction (config : StatsConfig)
    (config_path data_format feature_dim_char : string) : result unit :=
  let stats_axes := share_stats_axes config in
  let axis_names := ["height"; "width"; "channel"]%string in
  let dims := ["H"; "W"; feature_dim_char]%string in
  for_each
    (fun '(axis_name, dim) =>
       axis <- str_index data_format dim ;;
       if negb (axis_in axis stats_axes) then Raise ConfigError else OK tt)
    (combine axis_names dims).

(** The three contraction axes, at positions [h], [w] and [c] of the data
    format, are all members of [config.share_stats_axes]. *)
Definition contraction_axes_shared (config : StatsConfig) (h w c : nat)
    : Prop :=
  In (Z.of_nat h) (share_stats_axes config) /\
  In (Z.of_nat w) (share_stats_axes config) /\
  In (Z.of_nat c) (share_stats_axes config).

(** The default [feature_dim_char='C']. *)
Definition validate_conv_contraction_lhs (config : StatsConfig)
    (config_path data_format : string) : result unit :=
  validate_conv_contraction config config_path data_format "C".

End ConvContraction.

(** ** Straight-through estimator *)

Module STE.

(** Rounding to the nearest integer, ties to even. *)
Definition round_half_even (q : Q) : Z :=
  let f := Qfloor q in
  match Qcompare (q - inject_Z f) (1 # 2) with
  | Lt => f
  | Gt => (f + 1)%Z
  | Eq => if Z.even f then f else (f + 1)%Z
  end.

(** [floor(log2 |q|)] for a rational [q] other than 0. *)
Definition ilog2 (q : Q) : Z :=
  let k := (Z.log2 (Z.abs (Qnum q)) - Z.log2 (Zpos (Qden q)))%Z in
  if Qle_bool (2 ^ k) (Qabs q) then k else (k - 1)%Z.

(** The float32 number nearest to [q], ties to even: 24 bits of
    significand, the smallest exponent -149 (subnormal numbers). Overflow to
    infinity, above [2^128], is not part of the model. *)
Definition round32 (q : Q) : Q :=
  if Qeq_bool q 0 then 0
  else
    let e := Z.max (ilog2 q - 23) (-149) in
    inject_Z (round_half_even (q / 2 ^ e)) * 2 ^ e.

(** The float32 operations: the exact result, rounded. *)
Definition fadd (a b : Q) : Q := round32 (a + b).
Definition fsub (a b : Q) : Q := round32 (a - b).
Definition fmul (a b : Q) : Q := round32 (a * b).

(** A float32 value together with its derivative with respect to the input
    that is being differentiated (forward-mode differentiation). *)
Record dual : Set := {
  primal : Q;
  tangent : Q
}.

Definition dual_add (a b : dual) : dual :=
  {| primal := fadd (primal a) (primal b);
     tangent := fadd (tangent a) (tangent b) |}.

Definition dual_sub (a b : dual) : dual :=
  {| primal := fsub (primal a) (primal b);
     tangent := fsub (tangent a) (tangent b) |}.

Definition dual_mul (a b : dual) : dual :=
  {| primal := fmul (primal a) (primal b);
     tangent := fadd (fmul (primal a) (tangent b))
                     (fmul (tangent a) (primal b)) |}.

Definition constant (c : Q) : dual := {| primal := c; tangent := 0 |}.

(** The input of the differentiated function: its derivative is 1. *)
Definition variable (x : Q) : dual := {| primal := x; tangent := 1 |}.

(** The identity on values, with no derivative. *)
Definition stop_gradient (d : dual) : dual :=
  {| primal := primal d; tangent := 0 |}.

(** Modelled from the spec: [pass_through] of [aqt/jax/aqt_tensor.py], which
    is missing from the sources (its test is there). Section 4.5 gives it as
    the stop-gradient expression [x + stop_gradient(fn(x) - x)], here in
    the float32 arithmetic of the test. *)
Definition pass_through (x : dual) (fn : dual -> dual) : dual :=
  dual_add x (stop_gradient (dual_sub (fn x) x)).

(** The same value written so that nothing is rounded: [x - x] is 0 and
    [0 + fn(x)] is [fn(x)]. It is not the expression of the specification
    and stands here for comparison. *)
Definition pass_through_exact (x : dual) (fn : dual -> dual) : dual :=
  dual_add (dual_sub x (stop_gradient x)) (stop_gradient (fn x)).

(** [jax.grad(f)(x)] for a scalar [f]. *)
Definition grad (f : dual -> dual) (x : Q) : Q := tangent (f (variable x)).

(** Rounding as a differentiable program: its derivative is 0 wherever it
    has one. *)
Definition dual_round (d : dual) : dual :=
  constant (inject_Z (round_half_even (primal d))).

(** The function of [test_pass_through]: [x * eps + eps]. *)
Definition test_fn (eps : Q) (x : dual) : dual :=
  dual_add (dual_mul x (constant eps)) (constant eps).

End STE.

(** ** The quantizer state machine *)

Module Quantizer.

(** What section 4.4 of the specification takes from the statistics
    accumulator (4.2), the scale calibrator (4.3) and the quantize operation:
    their definitions lie in [aqt_tensor.py], which is missing from the
    sources, and the state machine is the same for all of them. A failing
    [calibrate] or [quantize] is the rejection of a bit width above 23. *)
Class Calibration : Type := {
  Tensor : Type;
  Stats : Type;
  Scale : Type;
  Quantized : Type;
  init_stats : Stats;
  init_scale : Scale;
  init_quantized : Quantized;
  with_update : Stats -> Tensor -> Tensor -> Stats;
  calibrate : Stats -> result Scale;
  quantize : Scale -> Tensor -> result Quantized
}.

Inductive phase : Set :=
| Uninitialized
| Calibrating
| Frozen.

Record state {C : Calibration} : Type := {
  mode : phase;
  stats : Stats;
  scale : Scale;
  last_update : Z;
  quantized_variable : Quantized
}.

Arguments state C : clear implicits.

(** Modelled from the spec: [init()] of the quantizer in [aqt_tensor.py]
    (missing from the sources): Uninitialized to Calibrating, zero stats and
    scale 1. The step counter it starts from is not given and is an
    argument here. *)
Definition init {C : Calibration} (first_update : Z) : state C :=
  {| mode := Calibrating;
     stats := init_stats;
     scale := init_scale;
     last_update := first_update;
     quantized_variable := init_quantized |}.

(** Modelled from the spec: [update(sample, weight, event_count)] of the
    quantizer in [aqt_tensor.py] (missing from the sources): only valid from
    Calibrating; a no-op if [event_count] equals [last_update]; otherwise it
    folds the sample into the statistics, recomputes the scale, replaces the
    cached quantized tensor and sets [last_update] to [event_count]. *)
Definition update {C : Calibration} (q : state C) (sample weight : Tensor)
    (event_count : Z) : result (state C) :=
  match mode q with
  | Calibrating =>
      if (event_count =? last_update q)%Z then OK q
      else
        let stats' := with_update (stats q) sample weight in
        scale' <- calibrate stats' ;;
        quantized' <- quantize scale' sample ;;
        OK {| mode := Calibrating;
              stats := stats';
              scale := scale';
              last_update := event_count;
              quantized_variable := quantized' |}
  | _ => Raise AssertionError
  end.

(** *** A scalar instance

    Tensors are flat lists of rationals whose axes are all shared, so that
    every accumulator and the scale are single numbers. *)

Record plain_stats : Set := {
  sum_of_ones : Q;
  sum_of_vals : Q;
  sum_of_l1_vals : Q;
  sum_of_lp_vals : Q
}.

Definition Qsum (l : list Q) : Q := fold_right Qplus 0 l.

(** Modelled from the spec: [with_update] of section 4.2 without a moving
    average: accumulate [sum(weight)], [sum(sample*weight)],
    [sum(|sample|*weight)] and [sum(|sample|^lp_order*weight)]. *)
Definition plain_with_update (lp_order : positive) (st : plain_stats)
    (sample weight : list Q) : plain_stats :=
  let sw := combine sample weight in
  {| sum_of_ones := sum_of_ones st + Qsum (map snd sw);
     sum_of_vals := sum_of_vals st + Qsum (map (fun '(s, w) => s * w) sw);
     sum_of_l1_vals :=
       sum_of_l1_vals st + Qsum (map (fun '(s, w) => Qabs s * w) sw);
     sum_of_lp_vals :=
       sum_of_lp_vals st
       + Qsum (map (fun '(s, w) => Qabs s ^ Zpos lp_order * w) sw) |}.

(** The mean absolute value that section 4.2 names for plain accumulation.
    Its value while nothing was observed is a choice of this instance: the
    specification only asks that no error is raised there. *)
Definition plain_max_dev (st : plain_stats) : Q :=
  if Qeq_bool (sum_of_ones st) 0 then 0
  else sum_of_l1_vals st / sum_of_ones st.

(** Modelled from the spec: the scale of section 4.3,
    [max_dev() / safe_clip_bound(int_config)], and 1 if [max_dev()] is 0. *)
Definition plain_calibrate {V : ClipBound.Validate ClipBound.IntQuantConfig}
    (config : ClipBound.IntQuantConfig) (st : plain_stats) : result Q :=
  bound <- ClipBound.safe_clip_bound config ;;
  let dev := plain_max_dev st in
  OK (if Qeq_bool dev 0 then 1 else dev / bound).

Definition clip (x lo hi : Q) : Q :=
  if ClipBound.Qlt_bool x lo then lo
  else if ClipBound.Qlt_bool hi x then hi else x.

(** Modelled from the spec: [to_quant] of section 4.4,
    [round(clip(x / scale, -safe_bound, safe_bound))]. *)
Definition plain_quantize {V : ClipBound.Validate ClipBound.IntQuantConfig}
    (config : ClipBound.IntQuantConfig) (scale : Q) (x : list Q)
    : result (list Z) :=
  bound <- ClipBound.safe_clip_bound config ;;
  OK (map (fun v => STE.round_half_even (clip (v / scale) (- bound) bound)) x).

Definition plain_calibration (config : ClipBound.IntQuantConfig)
    (lp_order : positive) : Calibration :=
  {| Tensor := list Q;
     Stats := plain_stats;
     Scale := Q;
     Quantized := list Z;
     init_stats :=
       {| sum_of_ones := 0; sum_of_vals := 0;
          sum_of_l1_vals := 0; sum_of_lp_vals := 0 |};
     init_scale := 1;
     init_quantized := [];
     with_update := plain_with_update lp_order;
     calibrate :=
       plain_calibrate (V := ClipBound.IntQuantConfig_validate) config;
     quantize :=
       plain_quantize (V := ClipBound.IntQuantConfig_validate) config |}.

(** The instance of the end-to-end property of the specification: 8 bits,
    zero preserved. *)
Definition int8_calibration : Calibration :=
  plain_calibration
    {| ClipBound.bits := 8; ClipBound.preserve_zero := true |} 2.

End Quantizer.

(** ** Single-precision floats *)

Module Float32.

(** A binary32 number: a significand below [2^24] times a power of two in
    the exponent range of the format. The bounds are Python floats
    (binary64); the tensors they clip are float32, which is what the
    assertion of [get_clip_bound] is about. *)
Definition binary32 (q : Q) : Prop :=
  exists m e : Z,
    (Z.abs m < 2 ^ 24)%Z /\ (-149 <= e <= 104)%Z /\ q == inject_Z m * 2 ^ e.

End Float32.

(** ** One epoch of the MNIST example *)

Module MnistExample.

#[local] Open Scope nat_scope.

(** The exceptions of [train_epoch]: the floor division by a batch size of
    zero, and the error of [reshape] when the sizes do not match. *)
Inductive outcome (A : Type) : Type :=
| Done (a : A)
| ZeroDivisionError
| ReshapeError.

Arguments Done {A} a.
Arguments ZeroDivisionError {A}.
Arguments ReshapeError {A}.

(** What [train_epoch] takes from JAX, NumPy and the other functions of the
    example: the random permutation of [range(n)], the rows of the dataset
    at given indices, the jitted [apply_model] and [update_model], and
    [np.mean]. The batch size and the sizes are natural numbers. *)
Class Training : Type := {
  State : Type;
  Dataset : Type;
  Images : Type;
  Labels : Type;
  Grads : Type;
  Vars : Type;
  Metric : Type;
  Rng : Type;
  size : Dataset -> nat;
  permutation : Rng -> nat -> list nat;
  take_images : Dataset -> list nat -> Images;
  take_labels : Dataset -> list nat -> Labels;
  apply_model : State -> Images -> Labels -> bool
                -> Grads * Metric * Metric * Vars;
  update_model : State -> Grads -> Vars -> State;
  mean : list Metric -> Metric
}.

(** [a // b] on non-negative integers. *)
Definition floordiv (a b : nat) : outcome nat :=
  if Nat.eqb b 0 then ZeroDivisionError else Done (a / b).

(** The rows of a flat array read as [steps] rows of [cols] entries. *)
Fixpoint rows (steps cols : nat) (l : list nat) : list (list nat) :=
  match steps with
  | O => []
  | S steps' => firstn cols l :: rows steps' cols (skipn cols l)
  end.

(** [l.reshape((steps, cols))] *)
Definition reshape (l : list nat) (steps cols : nat)
    : outcome (list (list nat)) :=
  if Nat.eqb (length l) (steps * cols) then Done (rows steps cols l)
  else ReshapeError.

(** The first lines of [train_epoch]: the batches of indices of one epoch,
    from the permutation [perms] of the dataset. *)
Definition epoch_batches (perms : list nat) (train_ds_size batch_size : nat)
    : outcome (list (list nat)) :=
  match floordiv train_ds_size batch_size with
  | Done steps_per_epoch =>
      let perms := firstn (steps_per_epoch * batch_size) perms in
      reshape perms steps_per_epoch batch_size
  | ZeroDivisionError => ZeroDivisionError
  | ReshapeError => ReshapeError
  end.

(** The body of the loop, on the state and the two lists of metrics. *)
Definition train_step {T : Training} (train_ds : Dataset)
    (acc : State * list Metric * list Metric) (perm : list nat)
    : State * list Metric * list Metric :=
  let '(state, epoch_loss, epoch_accuracy) := acc in
  let batch_images := take_images train_ds perm in
  let batch_labels := take_labels train_ds perm in
  let '(grads, loss, accuracy, updated_var) :=
    apply_model state batch_images batch_labels true in
  let state := update_model state grads updated_var in
  (state, epoch_loss ++ [loss], epoch_accuracy ++ [accuracy]).

Definition train_epoch {T : Training} (state : State) (train_ds : Dataset)
    (batch_size : nat) (rng : Rng) : outcome (State * Metric * Metric) :=
  let train_ds_size := size train_ds in
  match epoch_batches (permutation rng (size train_ds))
                      train_ds_size batch_size with
  | Done perms =>
      let '(state, epoch_loss, epoch_accuracy) :=
        fold_left (train_step train_ds) perms (state, [], []) in
      Done (state, mean epoch_loss, mean epoch_accuracy)
  | ZeroDivisionError => ZeroDivisionError
  | ReshapeError => ReshapeError
  end.

(** A small instance to run an epoch on: the state counts the updates, a
    batch is the list of its indices, the loss of a batch is its first
    index and the mean is the sum. The permutation reverses the indices. *)
Definition counting : Training :=
  {| State := nat;
     Dataset := nat;
     Images := list nat;
     Labels := list nat;
     Grads := unit;
     Vars := unit;
     Metric := nat;
     Rng := unit;
     size := fun n => n;
     permutation := fun _ n => rev (seq 0 n);
     take_images := fun _ perm => perm;
     take_labels := fun _ perm => perm;
     apply_model := fun _ images _ _ => (tt, hd 0%nat images, 1%nat, tt);
     update_model := fun state _ _ => S state;
     mean := fun l => fold_right Nat.add 0%nat l |}.

End MnistExample.

(** * Properties *)

(** ** Shape conformance *)

Module ShapeProofs.
Import Shape.

Lemma dim_eqb_eq (a b : dim) : dim_eqb a b = true <-> a = b.
Proof.
  destruct a as [x|], b as [y|]; simpl; split; intro H;
    try discriminate; try reflexivity.
  - apply Z.eqb_eq in H. now subst.
  - injection H as ->. apply Z.eqb_refl.
Qed.

(** The substitution looks at the entries of [actual]: a known entry is
    kept, an unknown one is replaced by the entry of [expected]. *)
Lemma expected_shape_cons (ax given : dim) (actual expected : shape) :
  expected_shape (ax :: actual) (given :: expected) =
  match ax with Some _ => ax | None => given end
  :: expected_shape actual expected.
Proof. reflexivity. Qed.

Lemma entry_accepts (ax given : dim) :
  dim_eqb ax (match ax with Some _ => ax | None => given end) = true
  <-> accepts ax given.
Proof.
  unfold accepts. destruct ax as [x|]; simpl.
  - rewrite Z.eqb_refl. split; [discriminate | reflexivity].
  - destruct given; split; intro H; try reflexivity; try discriminate.
    now specialize (H eq_refl).
Qed.

Lemma compatible_size_spec (actual expected : shape) :
  length actual = length expected ->
  shape_eqb actual (expected_shape actual expected) = true
  <-> Forall2 accepts actual expected.
Proof.
  revert expected.
  induction actual as [|ax actual IH]; intros [|given expected] Hlen;
    try discriminate.
  - simpl. split; [constructor | reflexivity].
  - injection Hlen as Hlen. rewrite expected_shape_cons. simpl.
    rewrite andb_true_iff, entry_accepts, (IH _ Hlen).
    split.
    + intros [H1 H2]. now constructor.
    + intro H. inversion H; subst. now split.
Qed.

Lemma Forall2_same_length {A B : Type} (R : A -> B -> Prop) l1 l2 :
  Forall2 R l1 l2 -> length l1 = length l2.
Proof. induction 1; simpl; congruence. Qed.

(** The check either returns or raises ValueError. *)
Lemma check_shapes_conformal_total (actual expected : shape) :
  check_shapes_conformal actual expected = OK tt \/
  check_shapes_conformal actual expected = Raise ValueError.
Proof.
  unfold check_shapes_conformal.
  destruct (negb _ || negb _); [right | left]; reflexivity.
Qed.

(** What the check accepts: shapes of the same rank in which every unknown
    entry of [actual] faces an unknown entry of [expected]. *)
Lemma check_shapes_conformal_accepts (actual expected : shape) :
  check_shapes_conformal actual expected = OK tt
  <-> Forall2 accepts actual expected.
Proof.
  unfold check_shapes_conformal.
  destruct (Nat.eqb (length actual) (length expected)) eqn:Hrank; simpl.
  - apply Nat.eqb_eq in Hrank.
    rewrite <- (compatible_size_spec _ _ Hrank).
    destruct (shape_eqb actual (expected_shape actual expected)); simpl;
      split; intro H; try reflexivity; discriminate.
  - apply Nat.eqb_neq in Hrank. split; [discriminate |].
    intro H. apply Forall2_same_length in H. contradiction.
Qed.

(** The check raises only for shapes that do not conform: it rejects too
    little, never too much. *)
Lemma check_shapes_conformal_raises_sound (actual expected : shape) :
  check_shapes_conformal actual expected = Raise ValueError ->
  ~ conforms actual expected.
Proof.
  intros Hraise [Hlen Hdims].
  assert (Hok : check_shapes_conformal actual expected = OK tt);
    [| rewrite Hok in Hraise; discriminate].
  apply check_shapes_conformal_accepts.
  clear Hraise. revert expected Hlen Hdims.
  induction actual as [|ax actual IH]; intros [|given expected] Hlen Hdims;
    try discriminate; constructor.
  - intros ->. destruct given as [n|]; [| reflexivity].
    specialize (Hdims 0%nat n eq_refl). discriminate.
  - apply IH; [now injection Hlen |].
    intros i n Hi. exact (Hdims (S i) n Hi).
Qed.

Example conformal_unknown_expected :
  check_shapes_conformal [Some 2; Some 3]%Z [Some 2; None]%Z = OK tt.
Proof. reflexivity. Qed.

Example conformal_rank_mismatch :
  check_shapes_conformal [Some 2]%Z [Some 2; Some 3]%Z = Raise ValueError.
Proof. reflexivity. Qed.

Example conformal_unknown_actual :
  check_shapes_conformal [None] [Some 3]%Z = Raise ValueError.
Proof. reflexivity. Qed.

(** C1, at the input where the code leaves the docstring: the shape [2,4]
    does not conform to [2,3] (the second dimension of the expectation is
    known and differs), and yet [check_shapes_conformal] returns instead of
    raising ValueError. *)
Theorem check_shapes_conformal_misses_size_mismatch :
  ~ conforms [Some 2; Some 4]%Z [Some 2; Some 3]%Z /\
  check_shapes_conformal [Some 2; Some 4]%Z [Some 2; Some 3]%Z = OK tt.
Proof.
  split; [| reflexivity].
  intros [_ Hdims]. specialize (Hdims 1%nat 3%Z eq_refl). discriminate.
Qed.

(** Shapes of equal length in which every entry of [actual] is a known
    integer pass, whatever the entries of [expected] are. *)
Lemma check_shapes_conformal_known_actual (actual expected : shape) :
  length actual = length expected ->
  all_known actual ->
  check_shapes_conformal actual expected = OK tt.
Proof.
  intros Hlen Hknown. apply check_shapes_conformal_accepts.
  revert expected Hlen.
  induction Hknown as [|ax actual Hax _ IH]; intros [|given expected] Hlen;
    try discriminate; constructor.
  - intro Hnone. contradiction.
  - apply IH. now injection Hlen.
Qed.

Lemma Forall2_accepts_nth (actual expected : shape) :
  Forall2 accepts actual expected
  <-> length actual = length expected /\
      forall i, nth_error actual i = Some None ->
                nth_error expected i = Some None.
Proof.
  revert expected.
  induction actual as [|ax actual IH]; intros [|given expected]; simpl.
  - split; [intros _ | constructor].
    split; [reflexivity |]. intros [|i]; discriminate.
  - split; [intro H; inversion H | intros [H _]; discriminate].
  - split; [intro H; inversion H | intros [H _]; discriminate].
  - split.
    + intro H. inversion H as [|? ? ? ? Hhd Htl]; subst.
      apply IH in Htl as [Hlen Hnth].
      split; [now rewrite Hlen |].
      intros [|i] Hi; simpl in *.
      * injection Hi as ->. now rewrite (Hhd eq_refl).
      * now apply Hnth.
    + intros [Hlen Hnth]. constructor.
      * intros ->. specialize (Hnth 0%nat eq_refl). simpl in Hnth.
        now injection Hnth.
      * apply IH. split; [now injection Hlen |].
        intros i Hi. exact (Hnth (S i) Hi).
Qed.

(** C10 as stated fails in its closing clause: an unknown entry of [actual]
    is no wildcard, it is rejected against a known entry of [expected];
    an unknown entry of [expected] accepts a known entry of [actual]. *)
Lemma unknown_actual_is_no_wildcard :
  check_shapes_conformal [None] [Some 3%Z] = Raise ValueError /\
  check_shapes_conformal [Some 3%Z] [None] = OK tt.
Proof. split; reflexivity. Qed.

(** C10, amended: for shapes of equal length, [check_shapes_conformal]
    returns whenever every entry of [actual] is a known integer, whatever
    the entries of [expected] are; and it returns exactly when every unknown
    entry of [actual] faces an unknown entry of [expected]: a None in
    [actual] passes only against a None. *)
Theorem check_shapes_conformal_equal_rank (actual expected : shape) :
  length actual = length expected ->
  (all_known actual -> check_shapes_conformal actual expected = OK tt) /\
  (check_shapes_conformal actual expected = OK tt
   <-> forall i, nth_error actual i = Some None ->
                 nth_error expected i = Some None).
Proof.
  intro Hlen. split.
  - now apply check_shapes_conformal_known_actual.
  - rewrite check_shapes_conformal_accepts, Forall2_accepts_nth.
    split; [now intros [_ H] | now split].
Qed.

Lemma check_shapes_conformal_equal_rank_witness :
  length [Some 2%Z; None; Some 7%Z] = length [Some 5%Z; None; None] /\
  (all_known [Some 2%Z; None; Some 7%Z] ->
   check_shapes_conformal [Some 2%Z; None; Some 7%Z]
                          [Some 5%Z; None; None] = OK tt) /\
  (check_shapes_conformal [Some 2%Z; None; Some 7%Z]
                          [Some 5%Z; None; None] = OK tt
   <-> forall i, nth_error [Some 2%Z; None; Some 7%Z] i = Some None ->
                 nth_error [Some 5%Z; None; None] i = Some None).
Proof.
  split; [reflexivity |].
  exact (@check_shapes_conformal_equal_rank
           [Some 2%Z; None; Some 7%Z] [Some 5%Z; None; None] eq_refl).
Defined.

End ShapeProofs.

(** ** Clip bounds *)

Module ClipBoundProofs.
Import ClipBound.

Lemma Qlt_bool_iff (x y : Q) : Qlt_bool x y = true <-> x < y.
Proof.
  unfold Qlt_bool. rewrite Qlt_alt.
  destruct (x ?= y); split; intro H; try reflexivity; discriminate.
Qed.

Lemma pow2_pos (z : Z) : 0 < 2 ^ z.
Proof. apply Qpower_0_lt. reflexivity. Qed.

Lemma Qminus_pos_lt (x e : Q) : 0 < e -> x - e < x.
Proof.
  intro He. apply Qlt_minus_iff.
  setoid_replace (x + - (x - e)) with e by ring. exact He.
Qed.

Lemma pow2_inject (z : Z) : (0 <= z)%Z -> 2 ^ z == inject_Z (2 ^ z).
Proof. intro Hz. symmetry. exact (Zpower_Qpower 2 z Hz). Qed.

Lemma raises_not_returns {A : Type} (m : result A) :
  raises m -> forall a, m <> OK a.
Proof. intros [e ->] a. discriminate. Qed.

(** A property of the bit widths 1..23 can be checked width by width. *)
Lemma bits_range_ind (P : Z -> Prop) :
  Forall P (map Z.of_nat (seq 1 23)) ->
  forall b : Z, (1 <= b <= 23)%Z -> P b.
Proof.
  intros HP b Hb. rewrite Forall_forall in HP. apply HP.
  apply in_map_iff. exists (Z.to_nat b). split; [lia |].
  apply in_seq. lia.
Qed.

Section Bounds.

Context {V : Validate IntQuantConfig}.

Lemma get_clip_bound_returns (config : IntQuantConfig) :
  validate config = OK tt ->
  (bits config <= 23)%Z ->
  get_clip_bound config = OK (display_bound config).
Proof.
  intros Hvalid Hbits. unfold get_clip_bound.
  rewrite Hvalid. simpl.
  apply Z.leb_le in Hbits. rewrite Hbits. reflexivity.
Qed.

Lemma safe_clip_bound_returns (config : IntQuantConfig) :
  validate config = OK tt ->
  (bits config <= 23)%Z ->
  safe_clip_bound config
  = OK (display_bound config - 2 ^ (-20 + bits config)).
Proof.
  intros Hvalid Hbits. unfold safe_clip_bound.
  rewrite (get_clip_bound_returns Hvalid Hbits). cbn [bind].
  assert (Hlt : Qlt_bool (display_bound config - 2 ^ (-20 + bits config))
                         (display_bound config) = true).
  { apply Qlt_bool_iff, Qminus_pos_lt, pow2_pos. }
  rewrite Hlt. reflexivity.
Qed.

(** C4: for a valid configuration with 1 <= bits <= 23, [get_clip_bound]
    returns [bucket_count / 2], where [bucket_count] is [2^bits - 1] if
    [preserve_zero] holds and [2^bits] otherwise. *)
Theorem get_clip_bound_half_bucket_count (config : IntQuantConfig) :
  validate config = OK tt ->
  (1 <= bits config <= 23)%Z ->
  exists bound : Q,
    get_clip_bound config = OK bound /\
    bound == inject_Z (bucket_count_spec config) / 2.
Proof.
  intros Hvalid [Hlo Hhi]. exists (display_bound config). split.
  - now apply get_clip_bound_returns.
  - unfold display_bound, bucket_count_spec.
    assert (Hpow : 2 ^ bits config == inject_Z (2 ^ bits config))
      by (apply pow2_inject; lia).
    destruct (preserve_zero config).
    + unfold Z.sub. rewrite inject_Z_plus, inject_Z_opp.
      rewrite Hpow. reflexivity.
    + rewrite Z.sub_0_r, Hpow. reflexivity.
Qed.

(** C3: for a valid configuration with 1 <= bits <= 23, [safe_clip_bound]
    returns [get_clip_bound(config) - 2^(bits-20)], and this value is
    strictly less than [get_clip_bound(config)]. *)
Theorem safe_clip_bound_below_display (config : IntQuantConfig) :
  validate config = OK tt ->
  (1 <= bits config <= 23)%Z ->
  exists display safe : Q,
    get_clip_bound config = OK display /\
    safe_clip_bound config = OK safe /\
    safe == display - 2 ^ (bits config - 20) /\
    safe < display.
Proof.
  intros Hvalid [Hlo Hhi].
  exists (display_bound config),
         (display_bound config - 2 ^ (-20 + bits config)).
  split; [now apply get_clip_bound_returns |].
  split; [now apply safe_clip_bound_returns |].
  split.
  - replace (bits config - 20)%Z with (-20 + bits config)%Z by lia.
    reflexivity.
  - apply Qminus_pos_lt, pow2_pos.
Qed.

(** The offset between the two bounds is [2^(bits-20)]. *)
Lemma clip_bound_offset (config : IntQuantConfig) :
  display_bound config
  - (display_bound config - 2 ^ (-20 + bits config))
  == 2 ^ (bits config - 20).
Proof.
  replace (bits config - 20)%Z with (-20 + bits config)%Z by lia.
  ring.
Qed.

(** Without [preserve_zero] the safe bound is the display bound scaled by
    [1 - eps] with [eps = 2^-19]: the relative correction that the comment
    in [safe_clip_bound] asks to keep at or above [2^-23]. *)
Lemma safe_clip_bound_relative (config : IntQuantConfig) :
  preserve_zero config = false ->
  display_bound config - 2 ^ (-20 + bits config)
  == display_bound config * (1 - 2 ^ (-19)).
Proof.
  intro Hpz. unfold display_bound. rewrite Hpz.
  rewrite Qpower_plus by discriminate.
  change (2 ^ (-20)) with (1 # 1048576).
  change (2 ^ (-19)) with (1 # 524288).
  field.
Qed.

(** C2, amended: for a valid configuration with 1 <= bits <= 23 the offset
    between the display bound and the safe bound is [2^(bits-20)], in exact
    arithmetic; it is smaller than [2^(-bits)] exactly when [bits <= 9]. *)
Theorem clip_bound_offset_below_bucket (config : IntQuantConfig) :
  validate config = OK tt ->
  (1 <= bits config <= 23)%Z ->
  exists display safe : Q,
    get_clip_bound config = OK display /\
    safe_clip_bound config = OK safe /\
    display - safe == 2 ^ (bits config - 20) /\
    (display - safe < 2 ^ (- bits config) <-> (bits config <= 9)%Z).
Proof.
  intros Hvalid [Hlo Hhi].
  exists (display_bound config),
         (display_bound config - 2 ^ (-20 + bits config)).
  split; [now apply get_clip_bound_returns |].
  split; [now apply safe_clip_bound_returns |].
  split; [apply clip_bound_offset |].
  rewrite clip_bound_offset. split.
  - intro Hlt. apply Qpower_lt_compat_l_inv in Hlt; [lia | reflexivity].
  - intro Hle. apply Qpower_lt_compat_l; [lia | reflexivity].
Qed.

(** C5: with more than 23 bits [get_clip_bound] raises, and so returns no
    bound; with at most 23 bits it returns for a valid configuration. *)
Theorem get_clip_bound_rejects_above_23 (config : IntQuantConfig) :
  ((23 < bits config)%Z ->
   raises (get_clip_bound config) /\
   forall bound, get_clip_bound config <> OK bound) /\
  ((bits config <= 23)%Z ->
   validate config = OK tt ->
   returns (get_clip_bound config)).
Proof.
  split.
  - intro Hbits.
    assert (Hraises : raises (get_clip_bound config)).
    { unfold get_clip_bound.
      destruct (validate config) as [[]|e]; simpl.
      - apply Z.leb_gt in Hbits. rewrite Hbits. simpl.
        now exists AssertionError.
      - now exists e. }
    split; [exact Hraises | now apply raises_not_returns].
  - intros Hbits Hvalid. exists (display_bound config).
    now apply get_clip_bound_returns.
Qed.

End Bounds.

(** The floats of the clip bounds are computed without rounding: for the bit
    widths 1..23 each intermediate value is a multiple of [2^-20] that fits
    the significand of a binary64 number. *)
Ltac dyadic :=
  match goal with
  | |- binary64 ?q =>
      let m := eval vm_compute in (Qfloor (q * 2 ^ 20)) in
      exists m, (-20)%Z;
      split; [reflexivity | split; [lia | vm_compute; reflexivity]]
  end.

Lemma binary64_exact (b : Z) :
  (1 <= b <= 23)%Z ->
  binary64 (2 ^ b) /\
  binary64 (2 ^ b - 1) /\
  binary64 (2 ^ b / 2) /\
  binary64 ((2 ^ b - 1) / 2) /\
  binary64 (2 ^ (-20 + b)) /\
  binary64 (2 ^ b / 2 - 2 ^ (-20 + b)) /\
  binary64 ((2 ^ b - 1) / 2 - 2 ^ (-20 + b)).
Proof.
  revert b. apply bits_range_ind.
  let l := eval vm_compute in (map Z.of_nat (seq 1 23)) in
  change (map Z.of_nat (seq 1 23)) with l.
  repeat (apply Forall_cons; [repeat split; dyadic |]).
  apply Forall_nil.
Qed.

Lemma get_clip_bound_half_bucket_count_witness :
  validate (Validate := IntQuantConfig_validate)
    {| bits := 8; preserve_zero := true |} = OK tt /\
  (1 <= 8 <= 23)%Z /\
  exists bound : Q,
    get_clip_bound (V := IntQuantConfig_validate)
      {| bits := 8; preserve_zero := true |} = OK bound /\
    bound == 255 # 2.
Proof.
  split; [reflexivity |]. split; [lia |].
  destruct (get_clip_bound_half_bucket_count (V := IntQuantConfig_validate)
              {| bits := 8; preserve_zero := true |} eq_refl ltac:(simpl; lia))
    as [bound [Hget Hval]].
  exists bound. split; [exact Hget |].
  rewrite Hval. reflexivity.
Defined.

Lemma safe_clip_bound_below_display_witness :
  validate (Validate := IntQuantConfig_validate)
    {| bits := 8; preserve_zero := true |} = OK tt /\
  (1 <= 8 <= 23)%Z /\
  exists display safe : Q,
    get_clip_bound (V := IntQuantConfig_validate)
      {| bits := 8; preserve_zero := true |} = OK display /\
    safe_clip_bound (V := IntQuantConfig_validate)
      {| bits := 8; preserve_zero := true |} = OK safe /\
    safe == display - 2 ^ (8 - 20) /\
    safe < display.
Proof.
  split; [reflexivity |]. split; [lia |].
  exact (safe_clip_bound_below_display (V := IntQuantConfig_validate)
           {| bits := 8; preserve_zero := true |} eq_refl
           ltac:(simpl; lia)).
Defined.

Lemma clip_bound_offset_below_bucket_witness :
  validate (Validate := IntQuantConfig_validate)
    {| bits := 8; preserve_zero := true |} = OK tt /\
  (1 <= 8 <= 23)%Z /\
  exists display safe : Q,
    get_clip_bound (V := IntQuantConfig_validate)
      {| bits := 8; preserve_zero := true |} = OK display /\
    safe_clip_bound (V := IntQuantConfig_validate)
      {| bits := 8; preserve_zero := true |} = OK safe /\
    display - safe == 2 ^ (8 - 20) /\
    (display - safe < 2 ^ (- 8) <-> (8 <= 9)%Z).
Proof.
  split; [reflexivity |]. split; [lia |].
  exact (clip_bound_offset_below_bucket (V := IntQuantConfig_validate)
           {| bits := 8; preserve_zero := true |} eq_refl
           ltac:(simpl; lia)).
Defined.

(** C2 as stated fails at 10 bits: the offset is [2^-10], which is not
    smaller than [2^-10]. *)
Lemma clip_bound_offset_not_below_bucket_at_10 :
  validate (Validate := IntQuantConfig_validate)
    {| bits := 10; preserve_zero := true |} = OK tt /\
  (1 <= 10 <= 23)%Z /\
  exists display safe : Q,
    get_clip_bound (V := IntQuantConfig_validate)
      {| bits := 10; preserve_zero := true |} = OK display /\
    safe_clip_bound (V := IntQuantConfig_validate)
      {| bits := 10; preserve_zero := true |} = OK safe /\
    ~ display - safe < 2 ^ (- 10).
Proof.
  split; [reflexivity |]. split; [lia |].
  eexists. eexists.
  split; [reflexivity |]. split; [reflexivity |].
  intro Hlt. vm_compute in Hlt. discriminate.
Qed.

(** At 16 bits the offset is [2^-4], four thousand times [2^-16]. *)
Example clip_bound_offset_at_16 :
  exists display safe : Q,
    get_clip_bound (V := IntQuantConfig_validate)
      {| bits := 16; preserve_zero := true |} = OK display /\
    safe_clip_bound (V := IntQuantConfig_validate)
      {| bits := 16; preserve_zero := true |} = OK safe /\
    display - safe == 2 ^ 12 * 2 ^ (- 16).
Proof.
  eexists. eexists.
  split; [reflexivity |]. split; reflexivity.
Qed.

Lemma get_clip_bound_rejects_above_23_witness :
  (23 < 24)%Z /\
  raises (get_clip_bound (V := IntQuantConfig_validate)
            {| bits := 24; preserve_zero := true |}) /\
  (8 <= 23)%Z /\
  validate (Validate := IntQuantConfig_validate)
    {| bits := 8; preserve_zero := false |} = OK tt /\
  returns (get_clip_bound (V := IntQuantConfig_validate)
             {| bits := 8; preserve_zero := false |}).
Proof.
  split; [lia |]. split.
  - apply (get_clip_bound_rejects_above_23 (V := IntQuantConfig_validate)
             {| bits := 24; preserve_zero := true |}).
    simpl. lia.
  - split; [lia |]. split; [reflexivity |].
    apply (get_clip_bound_rejects_above_23 (V := IntQuantConfig_validate)
             {| bits := 8; preserve_zero := false |}).
    + simpl. lia.
    + reflexivity.
Defined.

End ClipBoundProofs.

(** ** Contraction axes of a convolution *)

Module ConvContractionProofs.
Import ConvContraction.

Lemma axis_in_spec (axis : nat) (stats_axes : list Z) :
  axis_in axis stats_axes = true <-> In (Z.of_nat axis) stats_axes.
Proof.
  unfold axis_in. rewrite existsb_exists. split.
  - intros [z [Hin Heq]]. apply Z.eqb_eq in Heq. now subst.
  - intro Hin. exists (Z.of_nat axis). split; [exact Hin | apply Z.eqb_refl].
Qed.

(** The loop, once the three positions are known. *)
Lemma validate_conv_contraction_unfold (config : StatsConfig)
    (config_path data_format feature_dim_char : string) (h w c : nat) :
  str_index data_format "H" = OK h ->
  str_index data_format "W" = OK w ->
  str_index data_format feature_dim_char = OK c ->
  validate_conv_contraction config config_path data_format feature_dim_char
  = if axis_in h (share_stats_axes config)
       && axis_in w (share_stats_axes config)
       && axis_in c (share_stats_axes config)
    then OK tt else Raise ConfigError.
Proof.
  intros Hh Hw Hc. unfold validate_conv_contraction.
  cbn [combine for_each]. rewrite Hh, Hw, Hc. cbn [bind].
  destruct (axis_in h _), (axis_in w _), (axis_in c _); reflexivity.
Qed.

(** C6: for a data format that contains 'H', 'W' and the feature dimension
    character, [validate_conv_contraction] raises ConfigError if and only if
    one of the three contraction axes is not a member of
    [config.share_stats_axes], and returns when all three are members. *)
Theorem validate_conv_contraction_shared_axes (config : StatsConfig)
    (config_path data_format feature_dim_char : string) (h w c : nat) :
  str_index data_format "H" = OK h ->
  str_index data_format "W" = OK w ->
  str_index data_format feature_dim_char = OK c ->
  (validate_conv_contraction config config_path data_format feature_dim_char
   = Raise ConfigError
   <-> ~ contraction_axes_shared config h w c) /\
  (contraction_axes_shared config h w c ->
   validate_conv_contraction config config_path data_format feature_dim_char
   = OK tt).
Proof.
  intros Hh Hw Hc.
  rewrite (validate_conv_contraction_unfold config config_path _ _ Hh Hw Hc).
  unfold contraction_axes_shared.
  rewrite <- !axis_in_spec.
  destruct (axis_in h _), (axis_in w _), (axis_in c _); simpl;
    (split; [split |]);
    try discriminate; try reflexivity; try tauto;
    intros; intuition discriminate.
Qed.

Lemma validate_conv_contraction_shared_axes_witness :
  str_index "NHWC" "H" = OK 1%nat /\
  str_index "NHWC" "W" = OK 2%nat /\
  str_index "NHWC" "C" = OK 3%nat /\
  validate_conv_contraction {| share_stats_axes := [0; 1; 2]%Z |}
    "lhs" "NHWC" "C" = Raise ConfigError /\
  validate_conv_contraction {| share_stats_axes := [3; 1; 2]%Z |}
    "lhs" "NHWC" "C" = OK tt.
Proof.
  split; [reflexivity |]. split; [reflexivity |]. split; [reflexivity |].
  split.
  - apply (validate_conv_contraction_shared_axes
             {| share_stats_axes := [0; 1; 2]%Z |} "lhs" "NHWC" "C"
             (h := 1) (w := 2) (c := 3) eq_refl eq_refl eq_refl).
    unfold contraction_axes_shared. simpl.
    intros [_ [_ [H | [H | [H | []]]]]]; discriminate.
  - apply (validate_conv_contraction_shared_axes
             {| share_stats_axes := [3; 1; 2]%Z |} "lhs" "NHWC" "C"
             (h := 1) (w := 2) (c := 3) eq_refl eq_refl eq_refl).
    unfold contraction_axes_shared. simpl. tauto.
Defined.

(** An axis that is missing from the data format is a ValueError of
    [str.index], raised before the membership test. *)
Example validate_conv_contraction_missing_axis :
  validate_conv_contraction {| share_stats_axes := [1; 2]%Z |}
    "rhs" "NHWC" "I" = Raise ValueError.
Proof. reflexivity. Qed.

End ConvContractionProofs.

(** ** Straight-through estimator *)

Module STEProofs.
Import STE Float32.

(** *** Rounding to float32 *)

Lemma round_half_even_Z (q : Q) (z : Z) :
  q == inject_Z z -> round_half_even q = z.
Proof.
  intro H. unfold round_half_even.
  rewrite (Qfloor_comp _ _ H), Qfloor_Z.
  assert (Hlt : q - inject_Z z < 1 # 2).
  { rewrite H. setoid_replace (inject_Z z - inject_Z z) with 0 by ring.
    reflexivity. }
  pose proof (proj1 (Qlt_alt _ _) Hlt) as Hc. rewrite Hc. reflexivity.
Qed.

Lemma ilog2_le (q : Q) : ~ q == 0 -> 2 ^ ilog2 q <= Qabs q.
Proof.
  intro Hq. unfold ilog2.
  destruct (Qle_bool _ _) eqn:Hk; [now apply Qle_bool_imp_le |].
  clear Hk. destruct q as [n d]. cbn [Qnum Qden Qabs].
  assert (Hn : (0 < Z.abs n)%Z).
  { destruct n; try reflexivity. exfalso. apply Hq. reflexivity. }
  destruct (Z.log2_spec _ Hn) as [Ha _].
  destruct (Z.log2_spec (Zpos d) eq_refl) as [_ Hb].
  pose proof (Z.log2_nonneg (Z.abs n)) as Ha0.
  pose proof (Z.log2_nonneg (Zpos d)) as Hb0.
  set (a := Z.log2 (Z.abs n)) in *. set (b := Z.log2 (Zpos d)) in *.
  replace (a - b - 1)%Z with (a - Z.succ b)%Z by lia.
  rewrite Qpower_minus by discriminate.
  rewrite <- (Zpower_Qpower 2 a) by lia.
  rewrite <- (Zpower_Qpower 2 (Z.succ b)) by lia.
  rewrite (Qmake_Qdiv (Z.abs n) d).
  assert (Hd : 0 < inject_Z (Zpos d)) by reflexivity.
  assert (Hp : 0 < inject_Z (2 ^ Z.succ b)).
  { change 0 with (inject_Z 0). rewrite <- Zlt_Qlt. lia. }
  apply Qle_shift_div_l; [exact Hd |].
  unfold Qdiv. rewrite <- Qmult_assoc, (Qmult_comm (/ _)), Qmult_assoc.
  apply Qle_shift_div_r; [exact Hp |].
  rewrite <- !inject_Z_mult, <- Zle_Qle.
  apply Z.mul_le_mono_nonneg; lia.
Qed.

(** A float32 number is not moved by the rounding. *)
Lemma round32_id (q : Q) (m e : Z) :
  (Z.abs m < 2 ^ 24)%Z ->
  (-149 <= e)%Z ->
  q == inject_Z m * 2 ^ e ->
  round32 q == q.
Proof.
  intros Hm He Hq. unfold round32.
  destruct (Qeq_bool q 0) eqn:H0.
  - apply Qeq_bool_eq in H0. now rewrite H0.
  - apply Qeq_bool_neq in H0.
    assert (Hlog : (ilog2 q < 24 + e)%Z).
    { apply (Qpower_lt_compat_l_inv 2); [| reflexivity].
      apply (Qle_lt_trans _ (Qabs q)); [now apply ilog2_le |].
      rewrite Hq, Qabs_Qmult, (Qabs_pos (2 ^ e))
        by (apply Qlt_le_weak, Qpower_0_lt; reflexivity).
      rewrite Qpower_plus by discriminate.
      apply Qmult_lt_compat_r; [apply Qpower_0_lt; reflexivity |].
      change (Qabs (inject_Z m)) with (inject_Z (Z.abs m)).
      change (2 ^ 24) with (inject_Z (2 ^ 24)).
      rewrite <- Zlt_Qlt. exact Hm. }
    set (e' := Z.max (ilog2 q - 23) (-149)).
    assert (He' : (e' <= e)%Z) by (unfold e'; lia).
    assert (Hint : q / 2 ^ e' == inject_Z (m * 2 ^ (e - e'))).
    { rewrite Hq, inject_Z_mult, (Zpower_Qpower 2 (e - e')) by lia.
      rewrite Qpower_minus by discriminate.
      change (inject_Z 2) with 2. field.
      apply Qpower_not_0. discriminate. }
    rewrite (round_half_even_Z Hint).
    rewrite inject_Z_mult, (Zpower_Qpower 2 (e - e')) by lia.
    rewrite Qpower_minus by discriminate.
    change (inject_Z 2) with 2. rewrite Hq. field.
    apply Qpower_not_0. discriminate.
Qed.

(** *** The stop-gradient expression *)

(** The gradient of [pass_through] with respect to [x] is 1, whatever [fn]
    is: the derivative of [fn] is stopped, and [1 + 0] is not rounded. *)
Lemma pass_through_gradient (fn : dual -> dual) (x : Q) :
  grad (fun d => pass_through d fn) x == 1.
Proof.
  unfold grad, pass_through, dual_add, stop_gradient, variable.
  cbn [tangent]. vm_compute. reflexivity.
Qed.


(** The forward value of the stop-gradient expression is [fn(x)] whenever
    the difference [fn(x) - x] is a float32 number, so that the subtraction
    is not rounded. *)
Lemma pass_through_forward_unrounded (x : dual) (fn : dual -> dual) :
  binary32 (primal (fn x)) ->
  binary32 (primal (fn x) - primal x) ->
  primal (pass_through x fn) == primal (fn x).
Proof.
  intros [m [e [Hm [[He _] Hy]]]] [m' [e' [Hm' [[He' _] Hd]]]].
  unfold pass_through, dual_add, dual_sub, stop_gradient, fadd, fsub.
  cbn [primal].
  assert (Hsum : primal x + round32 (primal (fn x) - primal x)
                 == inject_Z m * 2 ^ e).
  { rewrite (round32_id Hm' He' Hd), <- Hy. ring. }
  rewrite (round32_id Hm He Hsum), Hsum. symmetry. exact Hy.
Qed.

(** Written as [x - stop_gradient(x) + stop_gradient(fn(x))] the forward
    value is [fn(x)] for every float32 value of [fn(x)], and the gradient is
    1. *)
Lemma pass_through_exact_forward (x : dual) (fn : dual -> dual) :
  binary32 (primal (fn x)) ->
  primal (pass_through_exact x fn) == primal (fn x).
Proof.
  intros [m [e [Hm [[He _] Hy]]]].
  unfold pass_through_exact, dual_add, dual_sub, stop_gradient, fadd, fsub.
  cbn [primal]. unfold round32 at 2.
  assert (H0 : Qeq_bool (primal x - primal x) 0 = true)
    by (apply Qeq_bool_iff; ring).
  rewrite H0.
  assert (Hsum : 0 + primal (fn x) == inject_Z m * 2 ^ e)
    by (rewrite <- Hy; ring).
  rewrite (round32_id Hm He Hsum), Hsum. symmetry. exact Hy.
Qed.

Lemma pass_through_exact_gradient (fn : dual -> dual) (x : Q) :
  grad (fun d => pass_through_exact d fn) x == 1.
Proof.
  unfold grad, pass_through_exact, dual_add, dual_sub, stop_gradient,
    variable.
  cbn [tangent]. vm_compute. reflexivity.
Qed.

(** The rounding step of that computation. *)
Example test_fn_difference_rounded :
  fsub (101 * 2 ^ (-23)) 100 == - 100 + 2 ^ (-16).
Proof. vm_compute. reflexivity. Qed.

(** Written as [x - stop_gradient(x) + stop_gradient(fn(x))] the value at
    that input is [fn(x)], with the same gradient. *)
Example pass_through_exact_test_fn :
  primal (pass_through_exact (variable 100) (test_fn (2 ^ (-23))))
  == primal (test_fn (2 ^ (-23)) (variable 100)) /\
  grad (fun d => pass_through_exact d (test_fn (2 ^ (-23)))) 100 == 1.
Proof. split; vm_compute; reflexivity. Qed.

(** Rounding has derivative 0, and 1 behind [pass_through]; at 5/2 the value
    is the rounded one. *)
Example pass_through_round :
  grad dual_round (5 # 2) == 0 /\
  grad (fun d => pass_through d dual_round) (5 # 2) == 1 /\
  primal (pass_through (variable (5 # 2)) dual_round) == 2.
Proof. repeat split. Qed.

End STEProofs.

(** ** The quantizer state machine *)

Module QuantizerProofs.
Import Quantizer.

(** After a call of [update] that returns, [last_update] is the event count
    of that call and the quantizer is still calibrating. *)
Lemma update_last_update {C : Calibration} (q q1 : state C)
    (sample weight : Tensor) (event_count : Z) :
  update q sample weight event_count = OK q1 ->
  mode q1 = Calibrating /\ last_update q1 = event_count.
Proof.
  unfold update. destruct (mode q) eqn:Hmode; try discriminate.
  destruct (event_count =? last_update q)%Z eqn:Hsame.
  - intro H. injection H as <-. apply Z.eqb_eq in Hsame. now split.
  - destruct (calibrate _) as [scale'|]; try discriminate. cbn [bind].
    destruct (quantize _ _) as [quantized'|]; try discriminate. cbn [bind].
    intro H. injection H as <-. now split.
Qed.

(** C8: a second call of [update] with the event count of the previous call
    is a no-op: it returns the state that the first call left, so the
    statistics, the scale and [last_update] keep their values. *)
Theorem update_same_event_count_noop {C : Calibration} (q q1 : state C)
    (sample weight sample' weight' : Tensor) (event_count : Z) :
  update q sample weight event_count = OK q1 ->
  update q1 sample' weight' event_count = OK q1.
Proof.
  intro Hfirst. apply update_last_update in Hfirst as [Hmode Hlast].
  unfold update. rewrite Hmode, Hlast, Z.eqb_refl. reflexivity.
Qed.

Lemma update_same_event_count_noop_witness :
  exists q1 : state int8_calibration,
    update (C := int8_calibration) (init 0) [10; 10] [1; 1] 1 = OK q1 /\
    update (C := int8_calibration) q1 [3] [1] 1 = OK q1 /\
    sum_of_ones (stats q1) == 2 /\
    last_update q1 = 1%Z.
Proof.
  eexists. split; [reflexivity |]. split.
  - apply (@update_same_event_count_noop int8_calibration
             (init 0) _ [10; 10] [1; 1] [3] [1] 1).
    reflexivity.
  - split; reflexivity.
Defined.

(** A later event count does change the statistics. *)
Example update_new_event_count :
  exists q1 q2 : state int8_calibration,
    update (C := int8_calibration) (init 0) [10; 10] [1; 1] 1 = OK q1 /\
    update (C := int8_calibration) q1 [3] [1] 2 = OK q2 /\
    sum_of_ones (stats q2) == 3 /\
    last_update q2 = 2%Z.
Proof.
  eexists. eexists. split; [reflexivity |]. split; [reflexivity |].
  split; reflexivity.
Qed.

End QuantizerProofs.

(** * Further properties of the code *)

(** ** Shape conformance: what the check accepts *)

Module ShapeMore.
Import Shape ShapeProofs.

Lemma accepts_unknown (actual expected : shape) :
  Forall2 accepts actual expected ->
  Forall (fun d : dim => d = None) actual ->
  Forall (fun d : dim => d = None) expected.
Proof.
  induction 1 as [|ax given actual expected Hhd _ IH]; intro Hnone.
  - constructor.
  - inversion Hnone; subst. constructor; [now apply Hhd | now apply IH].
Qed.

(** X1: the check returns exactly for shapes of the same rank in which
    every unknown entry of [actual] has an unknown entry of [expected] at its
    position; every other pair of shapes is a ValueError. *)
Theorem check_shapes_conformal_returns_iff (actual expected : shape) :
  (check_shapes_conformal actual expected = OK tt
   <-> length actual = length expected /\
       forall i, nth_error actual i = Some None ->
                 nth_error expected i = Some None) /\
  (check_shapes_conformal actual expected <> OK tt ->
   check_shapes_conformal actual expected = Raise ValueError).
Proof.
  split.
  - rewrite check_shapes_conformal_accepts. apply Forall2_accepts_nth.
  - intro Hnot.
    destruct (check_shapes_conformal_total actual expected); tauto.
Qed.

(** X2: a shape that conforms in the sense of the docstring is never
    rejected. *)
Theorem conforming_shape_accepted (actual expected : shape) :
  conforms actual expected ->
  check_shapes_conformal actual expected = OK tt.
Proof.
  intro Hconf.
  destruct (check_shapes_conformal_total actual expected) as [Hok | Hraise];
    [exact Hok |].
  now apply check_shapes_conformal_raises_sound in Hraise.
Qed.

Lemma conforming_shape_accepted_witness :
  conforms [Some 2; Some 3]%Z [Some 2; None]%Z /\
  check_shapes_conformal [Some 2; Some 3]%Z [Some 2; None]%Z = OK tt.
Proof.
  assert (Hconf : conforms [Some 2; Some 3]%Z [Some 2; None]%Z).
  { split; [reflexivity |].
    intros [|[|[|i]]] n H; simpl in H; try discriminate; exact H. }
  split; [exact Hconf | exact (conforming_shape_accepted Hconf)].
Defined.

(** X3: the note of the docstring: a shape of completely unknown sizes
    does not pass against an expectation with a known dimension. *)
Theorem unknown_shape_rejected (actual expected : shape) :
  Forall (fun d : dim => d = None) actual ->
  Exists (fun d : dim => d <> None) expected ->
  check_shapes_conformal actual expected = Raise ValueError.
Proof.
  intros Hnone Hknown.
  destruct (check_shapes_conformal_total actual expected) as [Hok | Hraise];
    [| exact Hraise].
  apply check_shapes_conformal_accepts in Hok.
  pose proof (accepts_unknown Hok Hnone) as Hall.
  rewrite Forall_forall in Hall. apply Exists_exists in Hknown.
  destruct Hknown as [d [Hin Hd]]. now specialize (Hall d Hin).
Qed.

Lemma unknown_shape_rejected_witness :
  Forall (fun d : dim => d = None) [None; None] /\
  Exists (fun d : dim => d <> None) [None; Some 3%Z] /\
  check_shapes_conformal [None; None] [None; Some 3%Z] = Raise ValueError.
Proof.
  assert (Hnone : Forall (fun d : dim => d = None) [None; None])
    by (repeat constructor).
  assert (Hknown : Exists (fun d : dim => d <> None) [None; Some 3%Z])
    by (apply Exists_cons_tl, Exists_cons_hd; discriminate).
  split; [exact Hnone |]. split; [exact Hknown |].
  exact (unknown_shape_rejected Hnone Hknown).
Defined.

(** X4: an expectation without any requirement accepts every shape of its rank,
    and only those. *)
Theorem no_requirement_checks_rank (actual expected : shape) :
  Forall (fun d : dim => d = None) expected ->
  (check_shapes_conformal actual expected = OK tt
   <-> length actual = length expected).
Proof.
  intro Hnone. rewrite check_shapes_conformal_accepts.
  split; [apply Forall2_same_length |].
  revert expected Hnone.
  induction actual as [|ax actual IH]; intros [|given expected] Hnone Hlen;
    try discriminate; constructor.
  - inversion Hnone; subst. now intros _.
  - inversion Hnone; subst. apply IH; [assumption | now injection Hlen].
Qed.

Lemma no_requirement_checks_rank_witness :
  Forall (fun d : dim => d = None) [None; None] /\
  (check_shapes_conformal [Some 7%Z; None] [None; None] = OK tt
   <-> length [Some 7%Z; None] = length [@None Z; None]).
Proof.
  assert (Hnone : Forall (fun d : dim => d = None) [None; None])
    by (repeat constructor).
  split; [exact Hnone |].
  exact (no_requirement_checks_rank [Some 7%Z; None] Hnone).
Defined.

(** X5: every shape passes against itself. *)
Theorem check_shapes_conformal_refl (s : shape) :
  check_shapes_conformal s s = OK tt.
Proof.
  apply check_shapes_conformal_accepts.
  induction s; constructor; [now intro | assumption].
Qed.

(** X6: passing the check is transitive: if [s1] passes against [s2] and
    [s2] against [s3], then [s1] passes against [s3]. *)
Theorem check_shapes_conformal_trans (s1 s2 s3 : shape) :
  check_shapes_conformal s1 s2 = OK tt ->
  check_shapes_conformal s2 s3 = OK tt ->
  check_shapes_conformal s1 s3 = OK tt.
Proof.
  rewrite !check_shapes_conformal_accepts.
  intro H12. revert s3.
  induction H12 as [|a b s1 s2 Hab _ IH]; intros s3 H23;
    inversion H23; subst; constructor.
  - intro Ha. auto.
  - now apply IH.
Qed.

Lemma check_shapes_conformal_trans_witness :
  check_shapes_conformal [Some 2; Some 3]%Z [None; Some 5%Z] = OK tt /\
  check_shapes_conformal [None; Some 5%Z] [None; Some 9%Z] = OK tt /\
  check_shapes_conformal [Some 2; Some 3]%Z [None; Some 9%Z] = OK tt.
Proof.
  split; [reflexivity |]. split; [reflexivity |].
  exact (@check_shapes_conformal_trans
           [Some 2; Some 3]%Z [None; Some 5%Z] [None; Some 9%Z]
           eq_refl eq_refl).
Defined.

End ShapeMore.

(** ** Clip bounds: representation, rounding, order *)

Module ClipBoundMore.
Import ClipBound ClipBoundProofs Float32.

(** Proves [binary32 q] for a closed [q] with the exponent [e]. *)
Ltac float32_at e :=
  match goal with
  | |- binary32 ?q =>
      let m := eval vm_compute in (Qfloor (q * 2 ^ (- e))) in
      exists m, e;
      split; [reflexivity | split; [lia | vm_compute; reflexivity]]
  end.

Ltac float32 :=
  first [ float32_at 3%Z | float32_at 2%Z | float32_at 1%Z | float32_at 0%Z
        | float32_at (-1)%Z | float32_at (-2)%Z | float32_at (-3)%Z
        | float32_at (-4)%Z | float32_at (-5)%Z | float32_at (-6)%Z
        | float32_at (-7)%Z | float32_at (-8)%Z | float32_at (-9)%Z
        | float32_at (-10)%Z | float32_at (-11)%Z | float32_at (-12)%Z
        | float32_at (-13)%Z | float32_at (-14)%Z | float32_at (-15)%Z
        | float32_at (-16)%Z | float32_at (-17)%Z | float32_at (-18)%Z
        | float32_at (-19)%Z | float32_at (-20)%Z ].

(** Checks a property of the bit widths 1..23 width by width with [tac]. *)
Ltac by_bits tac :=
  match goal with
  | |- forall b : Z, (1 <= b <= 23)%Z -> @?P b => apply (@bits_range_ind P)
  end;
  let l := eval vm_compute in (map Z.of_nat (seq 1 23)) in
  change (map Z.of_nat (seq 1 23)) with l;
  repeat (apply Forall_cons; [tac |]); apply Forall_nil.

Lemma bounds_binary32 (pz : bool) (b : Z) :
  (1 <= b <= 23)%Z ->
  binary32 (display_bound {| bits := b; preserve_zero := pz |}) /\
  binary32 (display_bound {| bits := b; preserve_zero := pz |}
            - 2 ^ (-20 + b)).
Proof.
  revert b. destruct pz; by_bits ltac:(split; float32).
Qed.

Lemma safe_positive (pz : bool) (b : Z) :
  (1 <= b <= 23)%Z ->
  0 < display_bound {| bits := b; preserve_zero := pz |} - 2 ^ (-20 + b).
Proof.
  revert b. destruct pz; by_bits ltac:(vm_compute; reflexivity).
Qed.

Lemma safe_rounds_to_largest (b : Z) :
  (1 <= b <= 23)%Z ->
  (b <= 19)%Z ->
  STE.round_half_even
    (display_bound {| bits := b; preserve_zero := true |} - 2 ^ (-20 + b))
  = (2 ^ (b - 1) - 1)%Z /\
  STE.round_half_even
    (- (display_bound {| bits := b; preserve_zero := true |}
        - 2 ^ (-20 + b)))
  = (- (2 ^ (b - 1) - 1))%Z.
Proof.
  revert b.
  by_bits ltac:(intro; first [split; vm_compute; reflexivity | lia]).
Qed.

Lemma display_rounds_out_of_range (b : Z) :
  (1 <= b <= 23)%Z ->
  (2 <= b)%Z ->
  STE.round_half_even (display_bound {| bits := b; preserve_zero := true |})
  = (2 ^ (b - 1))%Z.
Proof.
  revert b. by_bits ltac:(intro; first [vm_compute; reflexivity | lia]).
Qed.

Lemma safe_rounds_below_largest (b : Z) :
  (1 <= b <= 23)%Z ->
  (20 <= b)%Z ->
  (STE.round_half_even
     (display_bound {| bits := b; preserve_zero := true |} - 2 ^ (-20 + b))
   < 2 ^ (b - 1) - 1)%Z.
Proof.
  revert b. by_bits ltac:(intro; first [vm_compute; reflexivity | lia]).
Qed.

Lemma pow2_lt (b1 b2 : Z) : (b1 < b2)%Z -> 2 ^ b1 < 2 ^ b2.
Proof. intro H. apply Qpower_lt_compat_l; [exact H | reflexivity]. Qed.

Lemma display_bound_lt (pz : bool) (b1 b2 : Z) :
  (b1 < b2)%Z ->
  display_bound {| bits := b1; preserve_zero := pz |}
  < display_bound {| bits := b2; preserve_zero := pz |}.
Proof.
  intro H. apply pow2_lt in H. unfold display_bound. simpl.
  apply Qlt_minus_iff in H. apply Qlt_minus_iff.
  destruct pz.
  - setoid_replace ((2 ^ b2 - 1) / 2 + - ((2 ^ b1 - 1) / 2))
      with ((2 ^ b2 + - 2 ^ b1) * (1 # 2)) by field.
    apply Qmult_lt_0_compat; [exact H | reflexivity].
  - setoid_replace (2 ^ b2 / 2 + - (2 ^ b1 / 2))
      with ((2 ^ b2 + - 2 ^ b1) * (1 # 2)) by field.
    apply Qmult_lt_0_compat; [exact H | reflexivity].
Qed.

Lemma safe_bound_lt (pz : bool) (b1 b2 : Z) :
  (b1 < b2)%Z ->
  display_bound {| bits := b1; preserve_zero := pz |} - 2 ^ (-20 + b1)
  < display_bound {| bits := b2; preserve_zero := pz |} - 2 ^ (-20 + b2).
Proof.
  intro H. apply pow2_lt in H. unfold display_bound. simpl.
  rewrite (@Qpower_plus 2 (-20) b1), (@Qpower_plus 2 (-20) b2)
    by discriminate.
  change (2 ^ (-20)) with (1 # 1048576).
  apply Qlt_minus_iff in H. apply Qlt_minus_iff.
  destruct pz.
  - setoid_replace
      ((2 ^ b2 - 1) / 2 - (1 # 1048576) * 2 ^ b2
       + - ((2 ^ b1 - 1) / 2 - (1 # 1048576) * 2 ^ b1))
      with ((2 ^ b2 + - 2 ^ b1) * (524287 # 1048576)) by field.
    apply Qmult_lt_0_compat; [exact H | reflexivity].
  - setoid_replace
      (2 ^ b2 / 2 - (1 # 1048576) * 2 ^ b2
       + - (2 ^ b1 / 2 - (1 # 1048576) * 2 ^ b1))
      with ((2 ^ b2 + - 2 ^ b1) * (524287 # 1048576)) by field.
    apply Qmult_lt_0_compat; [exact H | reflexivity].
Qed.

Section More.

Context {V : Validate IntQuantConfig}.

(** X7: the internal assertion of [safe_clip_bound] never fails: for a
    positive bit width (where [get_clip_bound] has raised or the floats are
    exact) [safe_clip_bound] raises exactly the exception that
    [get_clip_bound] raises, and none when that returns. *)
Theorem safe_clip_bound_raises_iff (config : IntQuantConfig) (e : exn) :
  (1 <= bits config)%Z ->
  (safe_clip_bound config = Raise e <-> get_clip_bound config = Raise e).
Proof.
  intros _. unfold safe_clip_bound.
  destruct (get_clip_bound config) as [cb_unsafe | e0]; cbn [bind].
  - assert (Hlt : Qlt_bool (cb_unsafe - 2 ^ (-20 + bits config)) cb_unsafe
                  = true)
      by apply Qlt_bool_iff, Qminus_pos_lt, pow2_pos.
    rewrite Hlt. cbn [assert bind]. split; discriminate.
  - reflexivity.
Qed.

(** X8: both bounds of a valid configuration with 1 <= bits <= 23 are
    float32 numbers: converting them to the precision of the tensors does
    not move them. *)
Theorem clip_bounds_are_float32 (config : IntQuantConfig) :
  validate config = OK tt ->
  (1 <= bits config <= 23)%Z ->
  exists display safe : Q,
    get_clip_bound config = OK display /\
    safe_clip_bound config = OK safe /\
    binary32 display /\ binary32 safe.
Proof.
  intros Hvalid Hbits.
  exists (display_bound config),
         (display_bound config - 2 ^ (-20 + bits config)).
  split; [apply get_clip_bound_returns; [assumption | lia] |].
  split; [apply safe_clip_bound_returns; [assumption | lia] |].
  destruct config as [b pz]. exact (bounds_binary32 pz Hbits).
Qed.

(** X9: the safe bound of a valid configuration with 1 <= bits <= 23 is
    strictly positive, so that a scale may be divided by it. *)
Theorem safe_clip_bound_positive (config : IntQuantConfig) :
  validate config = OK tt ->
  (1 <= bits config <= 23)%Z ->
  exists safe : Q, safe_clip_bound config = OK safe /\ 0 < safe.
Proof.
  intros Hvalid Hbits.
  exists (display_bound config - 2 ^ (-20 + bits config)).
  split; [apply safe_clip_bound_returns; [assumption | lia] |].
  destruct config as [b pz]. exact (safe_positive pz Hbits).
Qed.

(** X10: the purpose of the safe bound. With [preserve_zero] and
    1 <= bits <= 19, rounding the safe bound to the nearest integer (ties to
    even) gives the largest signed integer of that width,
    [2^(bits-1) - 1], and rounding its negation gives the opposite. *)
Theorem safe_clip_bound_rounds_into_range (config : IntQuantConfig) :
  validate config = OK tt ->
  preserve_zero config = true ->
  (1 <= bits config <= 19)%Z ->
  exists safe : Q,
    safe_clip_bound config = OK safe /\
    STE.round_half_even safe = (2 ^ (bits config - 1) - 1)%Z /\
    STE.round_half_even (- safe) = (- (2 ^ (bits config - 1) - 1))%Z.
Proof.
  intros Hvalid Hpz Hbits.
  exists (display_bound config - 2 ^ (-20 + bits config)).
  split; [apply safe_clip_bound_returns; [assumption | lia] |].
  destruct config as [b pz]. simpl in *. subst pz.
  apply safe_rounds_to_largest; lia.
Qed.

(** X11: why the display bound must not be used for clipping. With
    [preserve_zero] and 2 <= bits <= 23 it is a tie that rounds to
    [2^(bits-1)], one more than the largest signed integer of that width. *)
Theorem get_clip_bound_rounds_out_of_range (config : IntQuantConfig) :
  validate config = OK tt ->
  preserve_zero config = true ->
  (2 <= bits config <= 23)%Z ->
  exists display : Q,
    get_clip_bound config = OK display /\
    STE.round_half_even display = (2 ^ (bits config - 1))%Z.
Proof.
  intros Hvalid Hpz Hbits.
  exists (display_bound config).
  split; [apply get_clip_bound_returns; [assumption | lia] |].
  destruct config as [b pz]. simpl in *. subst pz.
  apply display_rounds_out_of_range; lia.
Qed.

(** X12: with [preserve_zero] and 20 <= bits <= 23 the offset is a whole
    bucket or more, and the safe bound rounds to less than the largest
    signed integer: the top of the integer range is not used. *)
Theorem safe_clip_bound_underuses_range (config : IntQuantConfig) :
  validate config = OK tt ->
  preserve_zero config = true ->
  (20 <= bits config <= 23)%Z ->
  exists safe : Q,
    safe_clip_bound config = OK safe /\
    (STE.round_half_even safe < 2 ^ (bits config - 1) - 1)%Z.
Proof.
  intros Hvalid Hpz Hbits.
  exists (display_bound config - 2 ^ (-20 + bits config)).
  split; [apply safe_clip_bound_returns; [assumption | lia] |].
  destruct config as [b pz]. simpl in *. subst pz.
  apply safe_rounds_below_largest; lia.
Qed.

(** X13: both bounds grow with the bit width: of two valid configurations
    with the same [preserve_zero] and at most 23 bits, the one with more
    bits has the larger display bound and the larger safe bound. *)
Theorem clip_bounds_increase_with_bits (c1 c2 : IntQuantConfig) :
  validate c1 = OK tt ->
  validate c2 = OK tt ->
  preserve_zero c1 = preserve_zero c2 ->
  (1 <= bits c1)%Z ->
  (bits c1 < bits c2 <= 23)%Z ->
  exists display1 safe1 display2 safe2 : Q,
    get_clip_bound c1 = OK display1 /\ safe_clip_bound c1 = OK safe1 /\
    get_clip_bound c2 = OK display2 /\ safe_clip_bound c2 = OK safe2 /\
    display1 < display2 /\ safe1 < safe2.
Proof.
  intros Hv1 Hv2 Hpz _ Hbits.
  exists (display_bound c1), (display_bound c1 - 2 ^ (-20 + bits c1)),
         (display_bound c2), (display_bound c2 - 2 ^ (-20 + bits c2)).
  split; [apply get_clip_bound_returns; [assumption | lia] |].
  split; [apply safe_clip_bound_returns; [assumption | lia] |].
  split; [apply get_clip_bound_returns; [assumption | lia] |].
  split; [apply safe_clip_bound_returns; [assumption | lia] |].
  destruct c1 as [b1 pz1], c2 as [b2 pz2]. simpl in *. subst pz2.
  split; [apply display_bound_lt | apply safe_bound_lt]; lia.
Qed.

End More.

Lemma safe_clip_bound_raises_iff_witness :
  (1 <= 24)%Z /\
  (safe_clip_bound (V := IntQuantConfig_validate) {| bits := 24; preserve_zero := true |} = Raise AssertionError
   <-> get_clip_bound (V := IntQuantConfig_validate) {| bits := 24; preserve_zero := true |} = Raise AssertionError).
Proof.
  split; [lia |].
  exact (@safe_clip_bound_raises_iff IntQuantConfig_validate
           {| bits := 24; preserve_zero := true |} AssertionError ltac:(simpl; lia)).
Defined.

Lemma clip_bounds_are_float32_witness :
  validate (Validate := IntQuantConfig_validate) {| bits := 8; preserve_zero := true |} = OK tt /\
  (1 <= 8 <= 23)%Z /\
  exists display safe : Q,
    get_clip_bound (V := IntQuantConfig_validate) {| bits := 8; preserve_zero := true |} = OK display /\
    safe_clip_bound (V := IntQuantConfig_validate) {| bits := 8; preserve_zero := true |} = OK safe /\
    binary32 display /\ binary32 safe.
Proof.
  split; [reflexivity |]. split; [lia |].
  exact (@clip_bounds_are_float32 IntQuantConfig_validate {| bits := 8; preserve_zero := true |}
           eq_refl ltac:(simpl; lia)).
Defined.

Lemma safe_clip_bound_positive_witness :
  validate (Validate := IntQuantConfig_validate) {| bits := 1; preserve_zero := true |} = OK tt /\
  (1 <= 1 <= 23)%Z /\
  exists safe : Q, safe_clip_bound (V := IntQuantConfig_validate) {| bits := 1; preserve_zero := true |} = OK safe /\ 0 < safe.
Proof.
  split; [reflexivity |]. split; [lia |].
  exact (@safe_clip_bound_positive IntQuantConfig_validate {| bits := 1; preserve_zero := true |}
           eq_refl ltac:(simpl; lia)).
Defined.

Lemma safe_clip_bound_rounds_into_range_witness :
  validate (Validate := IntQuantConfig_validate) {| bits := 8; preserve_zero := true |} = OK tt /\
  (1 <= 8 <= 19)%Z /\
  exists safe : Q,
    safe_clip_bound (V := IntQuantConfig_validate) {| bits := 8; preserve_zero := true |} = OK safe /\
    STE.round_half_even safe = 127%Z /\
    STE.round_half_even (- safe) = (-127)%Z.
Proof.
  split; [reflexivity |]. split; [lia |].
  exact (@safe_clip_bound_rounds_into_range IntQuantConfig_validate {| bits := 8; preserve_zero := true |}
           eq_refl eq_refl ltac:(simpl; lia)).
Defined.

Lemma get_clip_bound_rounds_out_of_range_witness :
  validate (Validate := IntQuantConfig_validate) {| bits := 8; preserve_zero := true |} = OK tt /\
  (2 <= 8 <= 23)%Z /\
  exists display : Q,
    get_clip_bound (V := IntQuantConfig_validate) {| bits := 8; preserve_zero := true |} = OK display /\
    STE.round_half_even display = 128%Z.
Proof.
  split; [reflexivity |]. split; [lia |].
  exact (@get_clip_bound_rounds_out_of_range IntQuantConfig_validate {| bits := 8; preserve_zero := true |}
           eq_refl eq_refl ltac:(simpl; lia)).
Defined.

Lemma safe_clip_bound_underuses_range_witness :
  validate (Validate := IntQuantConfig_validate) {| bits := 20; preserve_zero := true |} = OK tt /\
  (20 <= 20 <= 23)%Z /\
  exists safe : Q,
    safe_clip_bound (V := IntQuantConfig_validate) {| bits := 20; preserve_zero := true |} = OK safe /\
    (STE.round_half_even safe < 2 ^ (20 - 1) - 1)%Z.
Proof.
  split; [reflexivity |]. split; [lia |].
  exact (@safe_clip_bound_underuses_range IntQuantConfig_validate {| bits := 20; preserve_zero := true |}
           eq_refl eq_refl ltac:(simpl; lia)).
Defined.

Lemma clip_bounds_increase_with_bits_witness :
  validate (Validate := IntQuantConfig_validate) {| bits := 4; preserve_zero := true |} = OK tt /\
  validate (Validate := IntQuantConfig_validate) {| bits := 8; preserve_zero := true |} = OK tt /\
  (1 <= 4)%Z /\ (4 < 8 <= 23)%Z /\
  exists display1 safe1 display2 safe2 : Q,
    get_clip_bound (V := IntQuantConfig_validate) {| bits := 4; preserve_zero := true |} = OK display1 /\
    safe_clip_bound (V := IntQuantConfig_validate) {| bits := 4; preserve_zero := true |} = OK safe1 /\
    get_clip_bound (V := IntQuantConfig_validate) {| bits := 8; preserve_zero := true |} = OK display2 /\
    safe_clip_bound (V := IntQuantConfig_validate) {| bits := 8; preserve_zero := true |} = OK safe2 /\
    display1 < display2 /\ safe1 < safe2.
Proof.
  split; [reflexivity |]. split; [reflexivity |].
  split; [lia |]. split; [lia |].
  exact (@clip_bounds_increase_with_bits IntQuantConfig_validate
           {| bits := 4; preserve_zero := true |} {| bits := 8; preserve_zero := true |} eq_refl eq_refl eq_refl
           ltac:(simpl; lia) ltac:(simpl; lia)).
Defined.

End ClipBoundMore.

(** ** Contraction axes: the outcomes of the validation *)

Module ConvContractionMore.
Import ConvContraction ConvContractionProofs.

Lemma str_index_raises (s sub : string) (e : exn) :
  str_index s sub = Raise e -> e = ValueError.
Proof.
  unfold str_index. destruct (String.index 0 sub s); [discriminate |].
  intro H. now injection H.
Qed.

Lemma axis_in_ext (axes1 axes2 : list Z) (axis : nat) :
  (forall z, In z axes1 <-> In z axes2) ->
  axis_in axis axes1 = axis_in axis axes2.
Proof.
  intro Hsame.
  destruct (axis_in axis axes1) eqn:H1, (axis_in axis axes2) eqn:H2;
    try reflexivity.
  - apply axis_in_spec, Hsame, axis_in_spec in H1. congruence.
  - apply axis_in_spec, Hsame, axis_in_spec in H2. congruence.
Qed.

Lemma validate_conv_contraction_returns_inv (config : StatsConfig)
    (config_path data_format feature_dim_char : string) :
  validate_conv_contraction config config_path data_format feature_dim_char
  = OK tt ->
  exists h w c : nat,
    str_index data_format "H" = OK h /\
    str_index data_format "W" = OK w /\
    str_index data_format feature_dim_char = OK c /\
    contraction_axes_shared config h w c.
Proof.
  intro Hok.
  destruct (str_index data_format "H") as [h|] eqn:Hh;
    [| unfold validate_conv_contraction in Hok;
       cbn [combine for_each] in Hok; rewrite Hh in Hok; discriminate].
  destruct (str_index data_format "W") as [w|] eqn:Hw;
    [| unfold validate_conv_contraction in Hok;
       cbn [combine for_each] in Hok; rewrite Hh, Hw in Hok;
       cbn [bind] in Hok;
       destruct (axis_in h _); discriminate].
  destruct (str_index data_format feature_dim_char) as [c|] eqn:Hc;
    [| unfold validate_conv_contraction in Hok;
       cbn [combine for_each] in Hok; rewrite Hh, Hw, Hc in Hok;
       cbn [bind] in Hok;
       destruct (axis_in h _), (axis_in w _); discriminate].
  exists h, w, c. repeat (split; [reflexivity |]).
  rewrite (validate_conv_contraction_unfold config config_path _ _
             Hh Hw Hc) in Hok.
  unfold contraction_axes_shared. rewrite <- !axis_in_spec.
  destruct (axis_in h _), (axis_in w _), (axis_in c _);
    try discriminate; now repeat split.
Qed.

Lemma validate_conv_contraction_returns_intro (config : StatsConfig)
    (config_path data_format feature_dim_char : string) (h w c : nat) :
  str_index data_format "H" = OK h ->
  str_index data_format "W" = OK w ->
  str_index data_format feature_dim_char = OK c ->
  contraction_axes_shared config h w c ->
  validate_conv_contraction config config_path data_format feature_dim_char
  = OK tt.
Proof.
  intros Hh Hw Hc [H1 [H2 H3]].
  rewrite (validate_conv_contraction_unfold config config_path _ _
             Hh Hw Hc).
  apply axis_in_spec in H1, H2, H3. now rewrite H1, H2, H3.
Qed.

(** X14: the validation returns exactly when 'H', 'W' and the feature
    dimension character all occur in the data format and their first
    positions are members of [config.share_stats_axes]. *)
Theorem validate_conv_contraction_returns_iff (config : StatsConfig)
    (config_path data_format feature_dim_char : string) :
  validate_conv_contraction config config_path data_format feature_dim_char
  = OK tt
  <-> exists h w c : nat,
        str_index data_format "H" = OK h /\
        str_index data_format "W" = OK w /\
        str_index data_format feature_dim_char = OK c /\
        contraction_axes_shared config h w c.
Proof.
  split.
  - apply validate_conv_contraction_returns_inv.
  - intros [h [w [c [Hh [Hw [Hc Hshared]]]]]].
    eapply validate_conv_contraction_returns_intro; eassumption.
Qed.

(** X15: the outcome of the validation, exception included, depends only
    on which axes are members of [share_stats_axes], not on their order or
    repetition, and not on [config_path]. *)
Theorem validate_conv_contraction_same_axes (config1 config2 : StatsConfig)
    (path1 path2 data_format feature_dim_char : string) :
  (forall z, In z (share_stats_axes config1)
             <-> In z (share_stats_axes config2)) ->
  validate_conv_contraction config1 path1 data_format feature_dim_char
  = validate_conv_contraction config2 path2 data_format feature_dim_char.
Proof.
  intro Hsame. unfold validate_conv_contraction. cbn [combine for_each].
  destruct (str_index data_format "H") as [h|]; cbn [bind];
    [| reflexivity].
  rewrite (@axis_in_ext _ _ h Hsame).
  destruct (axis_in h _); cbn [negb bind]; [| reflexivity].
  destruct (str_index data_format "W") as [w|]; cbn [bind];
    [| reflexivity].
  rewrite (@axis_in_ext _ _ w Hsame).
  destruct (axis_in w _); cbn [negb bind]; [| reflexivity].
  destruct (str_index data_format feature_dim_char) as [c|]; cbn [bind];
    [| reflexivity].
  rewrite (@axis_in_ext _ _ c Hsame). reflexivity.
Qed.

(** X16: sharing more axes never invalidates a configuration: if the
    validation returns for [config1] and every shared axis of [config1] is
    one of [config2], it returns for [config2]. *)
Theorem validate_conv_contraction_more_axes (config1 config2 : StatsConfig)
    (path1 path2 data_format feature_dim_char : string) :
  incl (share_stats_axes config1) (share_stats_axes config2) ->
  validate_conv_contraction config1 path1 data_format feature_dim_char
  = OK tt ->
  validate_conv_contraction config2 path2 data_format feature_dim_char
  = OK tt.
Proof.
  intros Hincl Hok.
  apply validate_conv_contraction_returns_inv in Hok
    as [h [w [c [Hh [Hw [Hc [H1 [H2 H3]]]]]]]].
  eapply validate_conv_contraction_returns_intro;
    [exact Hh | exact Hw | exact Hc |].
  repeat split; apply Hincl; assumption.
Qed.

(** X17: the validation raises ValueError exactly when a dimension
    character is missing from the data format and the axes of the
    characters before it are all shared; an axis that is not shared is
    reported first. *)
Theorem validate_conv_contraction_value_error (config : StatsConfig)
    (config_path data_format feature_dim_char : string) :
  validate_conv_contraction config config_path data_format feature_dim_char
  = Raise ValueError
  <-> str_index data_format "H" = Raise ValueError \/
      (exists h, str_index data_format "H" = OK h /\
                 In (Z.of_nat h) (share_stats_axes config) /\
                 str_index data_format "W" = Raise ValueError) \/
      (exists h w, str_index data_format "H" = OK h /\
                   In (Z.of_nat h) (share_stats_axes config) /\
                   str_index data_format "W" = OK w /\
                   In (Z.of_nat w) (share_stats_axes config) /\
                   str_index data_format feature_dim_char
                   = Raise ValueError).
Proof.
  unfold validate_conv_contraction. cbn [combine for_each].
  destruct (str_index data_format "H") as [h|eh] eqn:Hh; cbn [bind].
  2: { apply str_index_raises in Hh as ->. split; [now left | reflexivity]. }
  destruct (axis_in h _) eqn:Hah; cbn [negb bind].
  2: { split; [discriminate |].
       intros [H | [[h' [H [Hin _]]] | [h' [w' [H [Hin _]]]]]];
         try discriminate; injection H as <-;
         apply axis_in_spec in Hin; congruence. }
  apply axis_in_spec in Hah.
  destruct (str_index data_format "W") as [w|ew] eqn:Hw; cbn [bind].
  2: { apply str_index_raises in Hw as ->.
       split; [| reflexivity]. intros _. right. left. now exists h. }
  destruct (axis_in w _) eqn:Haw; cbn [negb bind].
  2: { split; [discriminate |].
       intros [H | [[h' [_ [_ H]]] | [h' [w' [_ [_ [H [Hin _]]]]]]]];
         try discriminate; injection H as <-;
         apply axis_in_spec in Hin; congruence. }
  apply axis_in_spec in Haw.
  destruct (str_index data_format feature_dim_char) as [c|ec] eqn:Hc;
    cbn [bind].
  2: { apply str_index_raises in Hc as ->.
       split; [| reflexivity]. intros _. right. right. now exists h, w. }
  destruct (axis_in c _); cbn [negb bind]; split; try discriminate;
    intros [H | [[h' [_ [_ H]]] | [h' [w' [_ [_ [_ [_ H]]]]]]]];
    discriminate.
Qed.

Lemma validate_conv_contraction_same_axes_witness :
  (forall z, In z (share_stats_axes {| share_stats_axes := [1; 2; 3]%Z |})
             <-> In z (share_stats_axes
                         {| share_stats_axes := [3; 3; 2; 1]%Z |})) /\
  validate_conv_contraction {| share_stats_axes := [1; 2; 3]%Z |}
    "lhs" "NHWC" "C"
  = validate_conv_contraction {| share_stats_axes := [3; 3; 2; 1]%Z |}
      "rhs" "NHWC" "C".
Proof.
  assert (Hsame :
    forall z, In z (share_stats_axes {| share_stats_axes := [1; 2; 3]%Z |})
              <-> In z (share_stats_axes
                          {| share_stats_axes := [3; 3; 2; 1]%Z |})).
  { intro z. simpl. tauto. }
  split; [exact Hsame |].
  exact (@validate_conv_contraction_same_axes _ _ "lhs" "rhs" "NHWC" "C"
           Hsame).
Defined.

Lemma validate_conv_contraction_more_axes_witness :
  incl (share_stats_axes {| share_stats_axes := [1; 2; 3]%Z |})
       (share_stats_axes {| share_stats_axes := [0; 1; 2; 3]%Z |}) /\
  validate_conv_contraction {| share_stats_axes := [1; 2; 3]%Z |}
    "lhs" "NHWC" "C" = OK tt /\
  validate_conv_contraction {| share_stats_axes := [0; 1; 2; 3]%Z |}
    "lhs" "NHWC" "C" = OK tt.
Proof.
  assert (Hincl :
    incl (share_stats_axes {| share_stats_axes := [1; 2; 3]%Z |})
         (share_stats_axes {| share_stats_axes := [0; 1; 2; 3]%Z |})).
  { intros z Hz. simpl in *. tauto. }
  split; [exact Hincl |]. split; [reflexivity |].
  exact (@validate_conv_contraction_more_axes _ _ "lhs" "lhs" "NHWC" "C"
           Hincl eq_refl).
Defined.

End ConvContractionMore.

(** ** One epoch of the MNIST example: the batches *)

Module MnistExampleProofs.
Import MnistExample.

#[local] Open Scope nat_scope.

Lemma rows_spec (steps cols : nat) (l : list nat) :
  length l = (steps * cols)%nat ->
  length (rows steps cols l) = steps /\
  Forall (fun perm => length perm = cols) (rows steps cols l) /\
  concat (rows steps cols l) = l.
Proof.
  revert l. induction steps as [|steps IH]; intros l Hlen; simpl in *.
  - apply length_zero_iff_nil in Hlen. subst. now repeat split.
  - destruct (IH (skipn cols l)) as [Hn [Hall Hcat]].
    { rewrite length_skipn. lia. }
    split; [now rewrite Hn |]. split.
    + constructor; [| exact Hall]. rewrite length_firstn. lia.
    + rewrite Hcat. apply firstn_skipn.
Qed.

Lemma epoch_batches_done (perms : list nat) (n batch_size : nat) :
  (0 < batch_size)%nat ->
  length perms = n ->
  epoch_batches perms n batch_size
  = Done (rows (n / batch_size) batch_size
               (firstn (n / batch_size * batch_size) perms)) /\
  length (firstn (n / batch_size * batch_size) perms)
  = (n / batch_size * batch_size)%nat.
Proof.
  intros Hpos Hlen.
  assert (Hle : (n / batch_size * batch_size <= n)%nat).
  { rewrite Nat.mul_comm. apply Nat.Div0.mul_div_le. }
  assert (Hfirst : length (firstn (n / batch_size * batch_size) perms)
                   = (n / batch_size * batch_size)%nat).
  { rewrite length_firstn. lia. }
  split; [| exact Hfirst].
  unfold epoch_batches, floordiv.
  destruct (Nat.eqb_spec batch_size 0) as [-> | _]; [lia |].
  unfold reshape. rewrite Hfirst, Nat.eqb_refl. reflexivity.
Qed.

(** X18: with a positive batch size the reshape of [train_epoch] never
    fails: an epoch has [n // batch_size] batches, each of exactly
    [batch_size] indices, and together they are the first
    [n // batch_size * batch_size] entries of the permutation, in order. *)
Theorem epoch_batches_full (perms : list nat) (n batch_size : nat) :
  (0 < batch_size)%nat ->
  length perms = n ->
  exists batches : list (list nat),
    epoch_batches perms n batch_size = Done batches /\
    length batches = (n / batch_size)%nat /\
    Forall (fun perm => length perm = batch_size) batches /\
    concat batches = firstn (n / batch_size * batch_size) perms.
Proof.
  intros Hpos Hlen.
  destruct (epoch_batches_done perms Hpos Hlen) as [Hdone Hfirst].
  eexists. split; [exact Hdone |].
  now apply rows_spec.
Qed.

(** X19: no example is used twice in an epoch, and only examples of the
    dataset are used: if [perms] is a permutation of [0 .. n-1], the indices
    of all batches together have no duplicates and are below [n]. *)
Theorem epoch_batches_no_reuse (perms : list nat) (n batch_size : nat) :
  (0 < batch_size)%nat ->
  Permutation (seq 0 n) perms ->
  exists batches : list (list nat),
    epoch_batches perms n batch_size = Done batches /\
    NoDup (concat batches) /\
    Forall (fun i => (i < n)%nat) (concat batches).
Proof.
  intros Hpos Hperm.
  assert (Hlen : length perms = n).
  { rewrite <- (Permutation_length Hperm). apply length_seq. }
  destruct (epoch_batches_done perms Hpos Hlen) as [Hdone Hfirst].
  destruct (rows_spec (n / batch_size) batch_size _ Hfirst)
    as [_ [_ Hcat]].
  eexists. split; [exact Hdone |]. rewrite Hcat.
  assert (Hnodup : NoDup perms)
    by (apply (Permutation_NoDup Hperm), seq_NoDup).
  rewrite <- (firstn_skipn (n / batch_size * batch_size) perms) in Hnodup.
  split; [exact (NoDup_app_remove_r _ _ Hnodup) |].
  apply Forall_forall. intros i Hi.
  assert (Hin : In i perms).
  { rewrite <- (firstn_skipn (n / batch_size * batch_size) perms).
    apply in_or_app. now left. }
  apply (Permutation_in _ (Permutation_sym Hperm)) in Hin.
  apply in_seq in Hin. lia.
Qed.

(** X20: the incomplete batch that an epoch skips has [n mod batch_size]
    examples, fewer than a batch. *)
Theorem epoch_batches_skipped (perms : list nat) (n batch_size : nat) :
  (0 < batch_size)%nat ->
  length perms = n ->
  exists batches : list (list nat),
    epoch_batches perms n batch_size = Done batches /\
    (length perms - length (concat batches) = n mod batch_size)%nat /\
    (n mod batch_size < batch_size)%nat.
Proof.
  intros Hpos Hlen.
  destruct (epoch_batches_done perms Hpos Hlen) as [Hdone Hfirst].
  eexists. split; [exact Hdone |].
  destruct (rows_spec (n / batch_size) batch_size _ Hfirst)
    as [_ [_ Hcat]].
  rewrite Hcat, Hfirst, Hlen.
  pose proof (Nat.div_mod_eq n batch_size) as Hdiv.
  split; [lia | apply Nat.mod_upper_bound; lia].
Qed.




(** X22: a batch size above the size of the dataset trains nothing:
    [train_epoch] returns the state it was given, and the means of no
    values. *)
Theorem train_epoch_batch_too_large {T : Training} (state : State)
    (train_ds : Dataset) (batch_size : nat) (rng : Rng) :
  size train_ds < batch_size ->
  train_epoch state train_ds batch_size rng
  = Done (state, mean [], mean []).
Proof.
  intro Hlarge. unfold train_epoch, epoch_batches, floordiv.
  destruct (Nat.eqb_spec batch_size 0) as [-> | _]; [lia |].
  rewrite (Nat.div_small _ _ Hlarge). reflexivity.
Qed.

Lemma train_epoch_batch_too_large_witness :
  size (Training := counting) 10 < 128 /\
  train_epoch (T := counting) 0 10 128 tt = Done (0, 0, 0).
Proof.
  split; [simpl; lia |].
  exact (@train_epoch_batch_too_large counting 0 10 128 tt
           ltac:(simpl; lia)).
Defined.

Lemma epoch_batches_full_witness :
  0 < 3 /\
  length [6; 2; 5; 0; 3; 1; 4] = 7 /\
  exists batches : list (list nat),
    epoch_batches [6; 2; 5; 0; 3; 1; 4] 7 3 = Done batches /\
    length batches = 7 / 3 /\
    Forall (fun perm => length perm = 3) batches /\
    concat batches = firstn (7 / 3 * 3) [6; 2; 5; 0; 3; 1; 4].
Proof.
  split; [lia |]. split; [reflexivity |].
  exact (@epoch_batches_full [6; 2; 5; 0; 3; 1; 4] 7 3
           ltac:(lia) eq_refl).
Defined.

Lemma epoch_batches_no_reuse_witness :
  0 < 3 /\
  Permutation (seq 0 4) [3; 2; 1; 0] /\
  exists batches : list (list nat),
    epoch_batches [3; 2; 1; 0] 4 3 = Done batches /\
    NoDup (concat batches) /\
    Forall (fun i => i < 4) (concat batches).
Proof.
  assert (Hperm : Permutation (seq 0 4) [3; 2; 1; 0])
    by exact (Permutation_rev [0; 1; 2; 3]).
  split; [lia |]. split; [exact Hperm |].
  exact (@epoch_batches_no_reuse [3; 2; 1; 0] 4 3 ltac:(lia) Hperm).
Defined.

Lemma epoch_batches_skipped_witness :
  0 < 3 /\
  length [6; 2; 5; 0; 3; 1; 4] = 7 /\
  exists batches : list (list nat),
    epoch_batches [6; 2; 5; 0; 3; 1; 4] 7 3 = Done batches /\
    length [6; 2; 5; 0; 3; 1; 4] - length (concat batches) = 7 mod 3 /\
    7 mod 3 < 3.
Proof.
  split; [lia |]. split; [reflexivity |].
  exact (@epoch_batches_skipped [6; 2; 5; 0; 3; 1; 4] 7 3
           ltac:(lia) eq_refl).
Defined.

Example train_epoch_counting :
  train_epoch (T := counting) 0 10 3 tt = Done (3, 9 + 6 + 3, 3).
Proof. reflexivity. Qed.

Example train_epoch_zero_batch :
  train_epoch (T := counting) 0 10 0 tt = ZeroDivisionError.
Proof. reflexivity. Qed.

End MnistExampleProofs.
